(** * A retrieval-and-conversation engine: [app.py]

    A shallow embedding of the engine of [app.py] (corpus loading, relevance
    ranking, follow-up question derivation, per-session state and the
    response orchestrator), with the properties its design document states
    about it.

    Conventions of the embedding.
    - A Python [str] is a [string]; its characters are read as code points
      below 256, and the character classes of [re] and [str] ([\s], [\d],
      [\w], [str.strip], [str.split]) are the Unicode ones restricted to
      that range.
    - The process-wide globals [pdf_texts], [file_details],
      [user_query_history] and [chat_session] are the fields of one [state]
      record, threaded explicitly.
    - A Python [dict] whose iteration order is observed ([pdf_texts]) is an
      association list in insertion order; one that is only looked up
      ([user_query_history]) is a [gmap].
    - An exception is a value of [exn]; a function that may raise returns
      [exn + A]. *)

From Stdlib Require Import String Ascii List Arith Bool Lia QArith Lqa Permutation Sorted.
From stdpp Require Import base gmap strings sorting.
Import ListNotations.

Local Open Scope string_scope.
Local Open Scope list_scope.
Local Open Scope nat_scope.

(** ** Text primitives of Python's [str] and [re] *)

Module Text.

(** [str.isspace] on one character; also what [\s] matches. *)
Definition isspace (c : ascii) : bool :=
  let n := nat_of_ascii c in
  ((9 <=? n) && (n <=? 13)) || ((28 <=? n) && (n <=? 32))
  || (n =? 133) || (n =? 160).

(** What [\d] matches: the decimal digits. *)
Definition isdecimal (c : ascii) : bool :=
  let n := nat_of_ascii c in (48 <=? n) && (n <=? 57).

(** The class [[A-Z]]. *)
Definition is_AZ (c : ascii) : bool :=
  let n := nat_of_ascii c in (65 <=? n) && (n <=? 90).

(** The class [[a-z]]. *)
Definition is_az (c : ascii) : bool :=
  let n := nat_of_ascii c in (97 <=? n) && (n <=? 122).

(** What [\w] matches: alphanumerics ([str.isalnum]) and the underscore. *)
Definition isword (c : ascii) : bool :=
  let n := nat_of_ascii c in
  isdecimal c || is_AZ c || is_az c || (n =? 95)
  || (n =? 170) || (n =? 178) || (n =? 179) || (n =? 181)
  || (n =? 185) || (n =? 186) || ((188 <=? n) && (n <=? 190))
  || ((192 <=? n) && (n <=? 214)) || ((216 <=? n) && (n <=? 246))
  || (248 <=? n).

(** What [.] matches without [re.DOTALL]: anything but a line feed. *)
Definition isdot (c : ascii) : bool := negb (nat_of_ascii c =? 10).

Definition chars (s : string) : list ascii := list_ascii_of_string s.
Definition str (l : list ascii) : string := string_of_list_ascii l.

Fixpoint lstrip_chars (l : list ascii) : list ascii :=
  match l with
  | c :: l' => if isspace c then lstrip_chars l' else l
  | [] => []
  end.

Definition rstrip_chars (l : list ascii) : list ascii :=
  rev (lstrip_chars (rev l)).

(** [s.strip()] *)
Definition strip (s : string) : string :=
  str (rstrip_chars (lstrip_chars (chars s))).

(** [s.split()]: the maximal runs of non-whitespace characters. [cur] is the
    run being read, last character first. *)
Fixpoint split_chars (cur : list ascii) (l : list ascii) : list string :=
  match l with
  | [] => match cur with [] => [] | _ => [str (rev cur)] end
  | c :: l' =>
      if isspace c
      then match cur with
           | [] => split_chars [] l'
           | _ => str (rev cur) :: split_chars [] l'
           end
      else split_chars (c :: cur) l'
  end.

Definition split (s : string) : list string := split_chars [] (chars s).

(** [sep.join(words)] *)
Definition join (sep : string) (words : list string) : string :=
  String.concat sep words.

(** [re.sub(r'(\d+)[,;](\d+)', r'\1 \2', text)].

    The matches are found left to right and do not overlap. A match starts
    in a run of digits, takes the run to its end (no shorter first group can
    be followed by [[,;]]), then one separator, then the whole run of digits
    that follows; the separator is replaced by one space. The scan is the
    automaton below: [InFirst] inside a digit run that may open a match,
    [AfterSep sep] when that run was followed by the separator [sep], not
    yet written, [InSecond] inside the second group of a match, whose digits
    are consumed and cannot open another match. *)
Inductive sub_state : Type :=
  | Outside
  | InFirst
  | AfterSep (sep : ascii)
  | InSecond.

Definition is_separator (c : ascii) : bool :=
  let n := nat_of_ascii c in (n =? 44) || (n =? 59).

Fixpoint sub_digit_groups (st : sub_state) (l : list ascii) : list ascii :=
  match l with
  | [] => match st with AfterSep sep => [sep] | _ => [] end
  | c :: l' =>
      match st with
      | Outside =>
          c :: sub_digit_groups (if isdecimal c then InFirst else Outside) l'
      | InFirst =>
          if isdecimal c then c :: sub_digit_groups InFirst l'
          else if is_separator c then sub_digit_groups (AfterSep c) l'
          else c :: sub_digit_groups Outside l'
      | AfterSep sep =>
          if isdecimal c then " "%char :: c :: sub_digit_groups InSecond l'
          else sep :: c :: sub_digit_groups Outside l'
      | InSecond =>
          c :: sub_digit_groups (if isdecimal c then InSecond else Outside) l'
      end
  end.

(** [re.sub(r'\s+', ' ', text)]: every maximal run of whitespace becomes one
    space. [in_run] tells that the previous character was whitespace. *)
Fixpoint sub_whitespace (in_run : bool) (l : list ascii) : list ascii :=
  match l with
  | [] => []
  | c :: l' =>
      if isspace c
      then if in_run then sub_whitespace true l'
           else " "%char :: sub_whitespace true l'
      else c :: sub_whitespace false l'
  end.

(** The three look-behinds of the sentence splitter, on the text before the
    current position, last character first. *)

(** [(?<!\w\.\w.)] fails where the four characters before match. *)
Definition behind_initials (before : list ascii) : bool :=
  match before with
  | c1 :: c2 :: c3 :: c4 :: _ =>
      isword c4 && (nat_of_ascii c3 =? 46) && isword c2 && isdot c1
  | _ => false
  end.

(** [(?<![A-Z][a-z]\.)] fails where the three characters before match. *)
Definition behind_abbreviation (before : list ascii) : bool :=
  match before with
  | c1 :: c2 :: c3 :: _ => is_AZ c3 && is_az c2 && (nat_of_ascii c1 =? 46)
  | _ => false
  end.

(** [(?<=\.|\?|\!)] holds where the character before ends a sentence. *)
Definition behind_terminator (before : list ascii) : bool :=
  match before with
  | c1 :: _ =>
      let n := nat_of_ascii c1 in (n =? 46) || (n =? 63) || (n =? 33)
  | [] => false
  end.

Definition is_boundary (before : list ascii) (c : ascii) : bool :=
  negb (behind_initials before) && negb (behind_abbreviation before)
  && behind_terminator before && isspace c.

(** [re.split(pattern, text)] for the one-character pattern above: [before]
    is the text already read and [cur] the piece being read, both last
    character first. The matched whitespace character is dropped. *)
Fixpoint split_sentences (before cur : list ascii) (l : list ascii)
  : list string :=
  match l with
  | [] => [str (rev cur)]
  | c :: l' =>
      if is_boundary before c
      then str (rev cur) :: split_sentences (c :: before) [] l'
      else split_sentences (c :: before) (c :: cur) l'
  end.

(** A word: not empty and free of whitespace. *)
Definition is_word (w : string) : Prop :=
  w <> "" /\ forallb (fun c => negb (isspace c)) (chars w) = true.

(** What the digit-group substitution may do to one character: leave it,
    or turn a separator into a space. *)
Definition replaced (a b : ascii) : Prop :=
  b = a \/ (is_separator a = true /\ b = " "%char).

End Text.

(** ** Follow-up question generator *)

Module FollowUp.
Import Text.

(** ["What about " + " ".join(words[:5]) + "?"] *)
Definition question_of (sentence : string) : string :=
  let words := split sentence in
  "What about " ++ join " " (firstn 5 words) ++ "?".

(** [question not in previous_questions] *)
Definition not_in (question : string) (previous_questions : list string)
  : bool :=
  negb (existsb (String.eqb question) previous_questions).

(** One iteration of the loop body before the [break] test. *)
Definition visit (previous_questions : list string) (sentence : string)
    (follow_up_questions : list string) : list string :=
  let sentence := strip sentence in
  if 20 <? String.length sentence
  then
    let question := question_of sentence in
    if not_in question previous_questions
    then follow_up_questions ++ [question]
    else follow_up_questions
  else follow_up_questions.

(** The [for sentence in sentences] loop with its [break]. *)
Fixpoint follow_up_loop (previous_questions : list string)
    (sentences : list string) (follow_up_questions : list string)
  : list string :=
  match sentences with
  | [] => follow_up_questions
  | sentence :: rest =>
      let follow_up_questions :=
        visit previous_questions sentence follow_up_questions in
      if 3 <=? length follow_up_questions
      then follow_up_questions
      else follow_up_loop previous_questions rest follow_up_questions
  end.

(** The sentences the loop runs over. *)
Definition sentences_of (relevant_text : string) : list string :=
  let relevant_text := sub_digit_groups Outside (chars relevant_text) in
  let relevant_text := sub_whitespace false relevant_text in
  split_sentences [] [] relevant_text.

Definition generate_follow_up_questions (relevant_text : string)
    (previous_questions : list string) : list string :=
  follow_up_loop previous_questions (sentences_of relevant_text) [].

(** What one sentence adds to the questions, in the words of the design:
    nothing when it is too short after trimming or when its question was
    asked before, and its question otherwise. *)
Definition accepted (previous_questions : list string) (sentence : string)
  : list string :=
  let sentence := strip sentence in
  if (20 <? String.length sentence)
     && not_in (question_of sentence) previous_questions
  then [question_of sentence]
  else [].

End FollowUp.

(** ** Data model *)

(** A raised exception: its class and its message. *)
Inductive exn : Type :=
  | ValueError (msg : string)
  | IndexError (msg : string)
  | CollaboratorError (msg : string).

(** [str(e)] *)
Definition str_exn (e : exn) : string :=
  match e with
  | ValueError msg | IndexError msg | CollaboratorError msg => msg
  end.

(** The three failures [rank_documents] raises itself, under the names the
    design document gives them. *)
Definition EmptyCorpus : exn :=
  ValueError
    "No documents found to rank against. Ensure documents are loaded correctly.".
Definition EmptyQuery : exn :=
  ValueError "Query is empty or contains only whitespace.".
Definition InsufficientCorpus : exn :=
  ValueError "There are no valid documents to compare the query against.".

(** A [dict] from path to text, in insertion order. *)
Definition dict : Type := list (string * string).

(** [d[k] = v]: an existing key keeps its place, a new key goes last. *)
Fixpoint dict_set (k v : string) (d : dict) : dict :=
  match d with
  | [] => [(k, v)]
  | (k', v') :: d' =>
      if String.eqb k k' then (k, v) :: d' else (k', v') :: dict_set k v d'
  end.

(** [d.get(k)] *)
Fixpoint dict_get (k : string) (d : dict) : option string :=
  match d with
  | [] => None
  | (k', v') :: d' => if String.eqb k k' then Some v' else dict_get k d'
  end.

(** [list(d.keys())] and [list(d.values())] *)
Definition keys (d : dict) : list string := map fst d.
Definition values (d : dict) : list string := map snd d.

(** An entry of [file_details]. *)
Record file_detail : Type := {
  file_name : string;
  file_path : string;
  mime_type : string
}.

(** A value of [user_query_history]. *)
Module Session.
Record t : Type := {
  query : string;
  follow_up_questions : list string;
  relevant_text : string
}.
End Session.

(** The globals of the process. [chat_session] is the one conversation
    shared by every session: the prompts sent and the answers received. *)
Record state : Type := {
  pdf_texts : dict;
  file_details : list file_detail;
  user_query_history : gmap string Session.t;
  chat_session : list (string * string)
}.

Definition set_pdf_texts (d : dict) (st : state) : state :=
  {| pdf_texts := d; file_details := file_details st;
     user_query_history := user_query_history st;
     chat_session := chat_session st |}.

Definition set_file_details (fd : list file_detail) (st : state) : state :=
  {| pdf_texts := pdf_texts st; file_details := fd;
     user_query_history := user_query_history st;
     chat_session := chat_session st |}.

Definition set_user_query_history (h : gmap string Session.t) (st : state)
  : state :=
  {| pdf_texts := pdf_texts st; file_details := file_details st;
     user_query_history := h; chat_session := chat_session st |}.

Definition set_chat_session (c : list (string * string)) (st : state)
  : state :=
  {| pdf_texts := pdf_texts st; file_details := file_details st;
     user_query_history := user_query_history st; chat_session := c |}.

(** The state at start-up. *)
Definition initial_state : state :=
  {| pdf_texts := []; file_details := []; user_query_history := ∅;
     chat_session := [] |}.

(** ** Corpus index *)

Module Corpus.

(** What the loader sees of the file system: the directories [os.walk]
    yields below a root, each with its file names, and the outcome of
    reading each path as a PDF and as a text file. *)
Record filesystem : Type := {
  os_walk : string -> list (string * list string);
  extract_text_from_pdf : string -> exn + string;
  extract_text_from_text_file : string -> exn + string
}.

Definition FILES_DIRECTORY : string := "files".

(** [s.endswith(suffix)] *)
Definition endswith (s suffix : string) : bool :=
  let n := String.length s in
  let m := String.length suffix in
  (m <=? n) && String.eqb (String.substring (n - m) m s) suffix.

(** [os.path.join(a, b)] of [posixpath]. *)
Definition os_path_join (a b : string) : string :=
  if String.prefix "/" b then b
  else if String.eqb a "" || endswith a "/" then a ++ b
  else a ++ "/" ++ b.

Definition mime_type_of (file_name : string) : option string :=
  if endswith file_name ".pdf" then Some "application/pdf"
  else if endswith file_name ".txt" then Some "text/plain"
  else None.

(** The body of the inner loop, for one file name of one directory. *)
Definition load_file (fs : filesystem) (root file_name : string)
    (st : state) : state :=
  let file_path := os_path_join root file_name in
  match mime_type_of file_name with
  | Some mime =>
      let st :=
        set_file_details
          (file_details st ++
             [{| file_name := file_name; file_path := file_path;
                 mime_type := mime |}]) st in
      if String.eqb mime "application/pdf" then
        match extract_text_from_pdf fs file_path with
        | inr file_text =>
            set_pdf_texts (dict_set file_path file_text (pdf_texts st)) st
        | inl _ => st
        end
      else if String.eqb mime "text/plain" then
        match extract_text_from_text_file fs file_path with
        | inr file_text =>
            set_pdf_texts (dict_set file_path file_text (pdf_texts st)) st
        | inl _ => st
        end
      else st
  | None => st
  end.

Definition load_directory (fs : filesystem) (entry : string * list string)
    (st : state) : state :=
  fold_left (fun st file_name => load_file fs (fst entry) file_name st)
    (snd entry) st.

(** [load_all_files()]: the returned [file_details] and the state after. *)
Definition load_all_files (fs : filesystem) (st : state)
  : list file_detail * state :=
  let st := set_file_details [] st in
  let st :=
    fold_left (fun st entry => load_directory fs entry st)
      (os_walk fs FILES_DIRECTORY) st in
  (file_details st, st).

(** The entry of [file_details] a file name of a directory gets, if its
    type is supported. *)
Definition detail_of (root file_name : string) : list file_detail :=
  match mime_type_of file_name with
  | Some mime =>
      [{| file_name := file_name; file_path := os_path_join root file_name;
          mime_type := mime |}]
  | None => []
  end.

(** The text a file name of a directory yields, if its type is supported
    and its extraction does not raise. *)
Definition extracted (fs : filesystem) (root file_name : string)
  : option string :=
  let file_path := os_path_join root file_name in
  match mime_type_of file_name with
  | Some mime =>
      if String.eqb mime "application/pdf" then
        match extract_text_from_pdf fs file_path with
        | inr file_text => Some file_text
        | inl _ => None
        end
      else if String.eqb mime "text/plain" then
        match extract_text_from_text_file fs file_path with
        | inr file_text => Some file_text
        | inl _ => None
        end
      else None
  | None => None
  end.

(** The files of a scan in the order the two loops visit them, each with
    its directory. *)
Definition scan_list (fs : filesystem) : list (string * string) :=
  flat_map (fun entry => map (pair (fst entry)) (snd entry))
    (os_walk fs FILES_DIRECTORY).

(** The two loops of the scan as one loop over its files. *)
Definition run (fs : filesystem) (files : list (string * string))
    (st : state) : state :=
  fold_left (fun st file => load_file fs (fst file) (snd file) st) files st.

(** The paths of a scan in the same order. *)
Definition scan_paths (fs : filesystem) : list string :=
  map (fun file => os_path_join (fst file) (snd file)) (scan_list fs).

End Corpus.

(** ** Relevance ranker *)

Module Ranker.

(** The two functions of [sklearn] the ranker calls. [fit_transform] is
    [TfidfVectorizer(stop_words='english').fit_transform]: it fails on an
    empty vocabulary and otherwise yields one row per text.
    [cosine_similarity] is taken row against row; a similarity is a finite
    floating-point number, read as the rational it denotes. *)
Class Sklearn : Type := {
  row : Type;
  fit_transform : list string -> option (list row);
  cosine_similarity : row -> row -> Q
}.

(** [fit_transform] yields a matrix with one row per text. *)
Definition fit_transform_shape (sk : Sklearn) : Prop :=
  forall texts tfidf_matrix,
    fit_transform texts = Some tfidf_matrix ->
    length tfidf_matrix = length texts.

(** [numpy.ndarray.argsort]: the positions of the array in ascending order
    of their values. The default sorting kind promises no order among equal
    values. *)
Class Numpy : Type := {
  argsort : list Q -> list nat
}.

Definition argsort_permutation (np : Numpy) : Prop :=
  forall xs, Permutation (argsort xs) (seq 0 (length xs)).

Definition argsort_ascending (np : Numpy) : Prop :=
  forall xs,
    StronglySorted (fun i j => (nth i xs 0 <= nth j xs 0)%Q) (argsort xs).

(** The order of a stable ascending argsort: by value, then by position. *)
Definition by_value_then_position (key : nat -> Q) (i j : nat) : Prop :=
  (key i < key j)%Q \/ ((key i == key j)%Q /\ i < j).

(** An argsort is stable when equal values keep the order of their
    positions. *)
Definition Stable (np : Numpy) : Prop :=
  forall xs,
    StronglySorted (by_value_then_position (fun i => nth i xs 0%Q))
      (argsort xs).

(** [sorted(l, key=key, reverse=True)]: descending, equal keys in the order
    of [l]. *)
Fixpoint insert_descending (key : nat -> Q) (x : nat) (l : list nat)
  : list nat :=
  match l with
  | [] => [x]
  | y :: l' =>
      if Qle_bool (key y) (key x) then x :: l
      else y :: insert_descending key x l'
  end.

Definition sorted_descending (key : nat -> Q) (l : list nat) : list nat :=
  fold_right (insert_descending key) [] l.

(** [heapq.nlargest(n, l, key)], which is [sorted(l, key=key,
    reverse=True)[:n]]. *)
Definition nlargest (n : nat) (l : list nat) (key : nat -> Q) : list nat :=
  firstn n (sorted_descending key l).

Definition empty_vocabulary : exn :=
  ValueError
    "empty vocabulary; perhaps the documents only contain stop words".

Section Rank.
Context {sk : Sklearn} {np : Numpy}.

(** [cosine_similarity(tfidf_matrix[-1], tfidf_matrix[:-1]).flatten()] *)
Definition similarities (tfidf_matrix : list row) : exn + list Q :=
  match rev tfidf_matrix with
  | [] => inl (IndexError "index out of range")
  | query_row :: _ =>
      inr (map (cosine_similarity query_row) (removelast tfidf_matrix))
  end.

(** [rank_documents(query)], reading the global [pdf_texts]. *)
Definition rank_documents (st : state) (query : string) : exn + list nat :=
  match pdf_texts st with
  | [] => inl EmptyCorpus
  | _ :: _ =>
      let all_texts := values (pdf_texts st) in
      if String.eqb (Text.strip query) "" then inl EmptyQuery
      else
        match fit_transform (all_texts ++ [query]) with
        | None => inl empty_vocabulary
        | Some tfidf_matrix =>
            if length tfidf_matrix <? 2 then inl InsufficientCorpus
            else
              match similarities tfidf_matrix with
              | inl e => inl e
              | inr cosine_sim =>
                  let ranked_docs := rev (argsort cosine_sim) in
                  inr (nlargest 3 ranked_docs
                         (fun idx => nth idx cosine_sim 0%Q))
              end
        end
  end.

(** The similarities [rank_documents] ranks by: the array [cosine_sim] of a
    call that reaches it (empty when the call fails before). *)
Definition cosine_sim_of (st : state) (query : string) : list Q :=
  match fit_transform (values (pdf_texts st) ++ [query]) with
  | Some tfidf_matrix =>
      match similarities tfidf_matrix with
      | inr cosine_sim => cosine_sim
      | inl _ => []
      end
  | None => []
  end.

(** The similarity of the document at position [idx]. *)
Definition score (st : state) (query : string) (idx : nat) : Q :=
  nth idx (cosine_sim_of st query) 0%Q.

(** The identities of the documents at the ranked positions: their keys
    in [pdf_texts]. *)
Definition identities (st : state) (ranked_docs : list nat) : list string :=
  map (fun idx => nth idx (keys (pdf_texts st)) "") ranked_docs.

End Rank.

(** *** The ranker over libraries that need not be functions

    For the question whether two calls agree, a call to a library is a
    relation between its arguments and what it returns: a library that
    answers differently from one call to the next is then not excluded by
    the embedding. [cosine_similarity_call] relates the query row and the
    document rows to the flattened array of similarities. *)
Record Library : Type := {
  library_row : Type;
  fit_transform_call : list string -> option (list library_row) -> Prop;
  cosine_similarity_call : library_row -> list library_row -> list Q -> Prop;
  argsort_call : list Q -> list nat -> Prop
}.

(** A call that returns the same for the same arguments. *)
Definition deterministic {A B : Type} (call : A -> B -> Prop) : Prop :=
  forall a b1 b2, call a b1 -> call a b2 -> b1 = b2.

(** What every [argsort] returns: the positions in ascending order of their
    values, in some order among equal values. *)
Definition argsort_call_sorts (L : Library) : Prop :=
  forall xs sorted,
    argsort_call L xs sorted ->
    Permutation sorted (seq 0 (length xs)) /\
    StronglySorted (fun i j => (nth i xs 0 <= nth j xs 0)%Q) sorted.

(** No two positions of an array hold equal values. *)
Definition no_ties (xs : list Q) : Prop :=
  forall i j,
    i < length xs -> j < length xs -> (nth i xs 0 == nth j xs 0)%Q -> i = j.

(** The arrays [cosine_sim] that a call of [rank_documents] may compute. *)
Definition cosine_sim_call (L : Library) (st : state) (query : string)
    (cosine_sim : list Q) : Prop :=
  exists tfidf_matrix docs query_row,
    fit_transform_call L (values (pdf_texts st) ++ [query])
      (Some tfidf_matrix) /\
    tfidf_matrix = docs ++ [query_row] /\
    cosine_similarity_call L query_row docs cosine_sim.

(** [rank_documents(query)] as a relation between the state, the query and
    the outcome of one call, guard by guard. *)
Inductive rank_call (L : Library) (st : state) (query : string)
  : exn + list nat -> Prop :=
  | call_empty_corpus :
      pdf_texts st = [] ->
      rank_call L st query (inl EmptyCorpus)
  | call_empty_query :
      pdf_texts st <> [] ->
      Text.strip query = "" ->
      rank_call L st query (inl EmptyQuery)
  | call_empty_vocabulary :
      pdf_texts st <> [] ->
      Text.strip query <> "" ->
      fit_transform_call L (values (pdf_texts st) ++ [query]) None ->
      rank_call L st query (inl empty_vocabulary)
  | call_insufficient tfidf_matrix :
      pdf_texts st <> [] ->
      Text.strip query <> "" ->
      fit_transform_call L (values (pdf_texts st) ++ [query])
        (Some tfidf_matrix) ->
      length tfidf_matrix < 2 ->
      rank_call L st query (inl InsufficientCorpus)
  | call_ranked tfidf_matrix docs query_row cosine_sim sorted :
      pdf_texts st <> [] ->
      Text.strip query <> "" ->
      fit_transform_call L (values (pdf_texts st) ++ [query])
        (Some tfidf_matrix) ->
      2 <= length tfidf_matrix ->
      tfidf_matrix = docs ++ [query_row] ->
      cosine_similarity_call L query_row docs cosine_sim ->
      argsort_call L cosine_sim sorted ->
      rank_call L st query
        (inr (nlargest 3 (rev sorted) (fun idx => nth idx cosine_sim 0%Q))).

(** The libraries given as functions, as relations. *)
Definition library_of (sk : Sklearn) (np : Numpy) : Library :=
  {| library_row := row;
     fit_transform_call := fun texts tfidf_matrix =>
       tfidf_matrix = fit_transform texts;
     cosine_similarity_call := fun query_row docs cosine_sim =>
       cosine_sim = map (cosine_similarity query_row) docs;
     argsort_call := fun xs sorted => sorted = argsort xs |}.

End Ranker.

(** ** Response orchestrator *)

Module Orchestrator.
Import Ranker.

(** The generation collaborator: the call
    [chat_session.send_message(prompt)] and the read of [.text] that
    follows it, given the conversation so far. It yields the text, or the
    exception that either of the two raised, and the conversation the
    library holds afterwards, which a call may have extended before the
    read of its text raises. *)
Class Generator : Type := {
  send_message :
    list (string * string) -> string ->
    (exn + string) * list (string * string)
}.

(** Computations that read and write the globals and may raise. The state
    written before a raise stays written. *)
Definition M (A : Type) : Type := state -> (exn + A) * state.

Definition ret {A : Type} (a : A) : M A := fun st => (inr a, st).

Definition bind {A B : Type} (m : M A) (k : A -> M B) : M B :=
  fun st =>
    match m st with
    | (inl e, st') => (inl e, st')
    | (inr a, st') => k a st'
    end.

Definition lift {A : Type} (r : exn + A) : M A := fun st => (r, st).

Definition read {A : Type} (f : state -> A) : M A := fun st => (inr (f st), st).

Definition write (f : state -> state) : M unit := fun st => (inr tt, f st).

Notation "'let*' x ':=' m 'in' k" := (bind m (fun x => k))
  (at level 10, x name, m at level 100, k at level 200).

Definition newline : string := String "010"%char "".
Definition double_quote : string := String "034"%char "".

(** The [for idx in ranked_docs] loop: [list(pdf_texts.values())[idx]]
    raises outside the list. *)
Fixpoint gather (texts : list string) (ranked_docs : list nat)
    (relevant_text : string) : exn + string :=
  match ranked_docs with
  | [] => inr relevant_text
  | idx :: rest =>
      match nth_error texts idx with
      | Some text => gather texts rest (relevant_text ++ text ++ newline)
      | None => inl (IndexError "list index out of range")
      end
  end.

Definition system_prompt (user_query relevant_text : string) : string :=
  newline
  ++ "       You are a knowledgeable assistant. Your role is to provide accurate and concise responses based only on the information in the provided documents."
  ++ newline
  ++ "        User's Question: " ++ double_quote ++ user_query ++ double_quote
  ++ newline
  ++ "        Relevant Context from Documents:" ++ newline
  ++ "        " ++ relevant_text ++ newline
  ++ "        Answer the user's question in a professional tone, using no more than 100 words. Do not include any information that is not found in the documents."
  ++ newline
  ++ "        ".

(** The answer given for a raised exception:
    [f"Error processing your query: {str(e)}"]. *)
Definition error_answer (e : exn) : string :=
  "Error processing your query: " ++ str_exn e.

(** The record a turn stores for its session. *)
Definition turn_record (user_query relevant_text : string)
    (previous_questions : list string) : Session.t :=
  {| Session.query := user_query;
     Session.follow_up_questions :=
       FollowUp.generate_follow_up_questions relevant_text previous_questions;
     Session.relevant_text := relevant_text |}.

Section Respond.
Context {sk : Sklearn} {np : Numpy} {gen : Generator}.

(** [user_query_history.get(session_id, {}).get("follow_up_questions", [])] *)
Definition previous_questions_of (session_id : string) (st : state)
  : list string :=
  match user_query_history st !! session_id with
  | Some s => Session.follow_up_questions s
  | None => []
  end.

(** The body of the [try]. *)
Definition respond_body (user_query session_id : string)
  : M (string * list string) :=
  let* ranked_docs := (fun st => (rank_documents st user_query, st)) in
  let* relevant_text :=
    (fun st => (gather (values (pdf_texts st)) ranked_docs "", st)) in
  let* previous_questions := read (previous_questions_of session_id) in
  let follow_up_questions :=
    FollowUp.generate_follow_up_questions relevant_text previous_questions in
  let* _ :=
    write (fun st =>
      set_user_query_history
        (<[session_id :=
             {| Session.query := user_query;
                Session.follow_up_questions := follow_up_questions;
                Session.relevant_text := relevant_text |}]>
           (user_query_history st)) st) in
  let prompt := system_prompt user_query relevant_text in
  let* response_text :=
    (fun st =>
       let (outcome, history) := send_message (chat_session st) prompt in
       (outcome, set_chat_session history st)) in
  ret (Text.strip response_text, follow_up_questions).

(** [chatbot_respond(user_query, session_id)]: the [try] and its
    [except Exception]. *)
Definition chatbot_respond (user_query session_id : string) (st : state)
  : (string * list string) * state :=
  match respond_body user_query session_id st with
  | (inr result, st') => (result, st')
  | (inl e, st') => ((error_answer e, []), st')
  end.

End Respond.

End Orchestrator.

(** ** The request boundary *)

Module Routes.
Import Ranker Orchestrator.

(** The JSON body of a request to [/chat], as far as the route reads it:
    the fields ["query"] and ["session_id"], each a string or absent. The
    route is modelled on these bodies only: a body that is not a JSON
    object, or that holds another kind of value in one of the two fields,
    is not a value of this type. *)
Record chat_request : Type := {
  request_query : option string;
  request_session_id : option string
}.

(** The JSON body of an answer of [/chat]. *)
Inductive chat_body : Type :=
  | ErrorBody (error : string)
  | ChatBody (response : string) (follow_up_questions : list string).

Section Chat.
Context {sk : Sklearn} {np : Numpy} {gen : Generator}.

(** [chat()]: the body and the status of the answer, and the state after.
    [not user_query] holds of an absent query and of the empty string. *)
Definition chat (request : chat_request) (st : state)
  : (chat_body * nat) * state :=
  let user_query := request_query request in
  let session_id :=
    match request_session_id request with
    | Some session_id => session_id
    | None => "default"
    end in
  match user_query with
  | None => ((ErrorBody "Query is required", 400), st)
  | Some user_query =>
      if String.eqb user_query ""
      then ((ErrorBody "Query is required", 400), st)
      else
        match chatbot_respond user_query session_id st with
        | ((bot_response, follow_up_questions), st') =>
            ((ChatBody bot_response follow_up_questions, 200), st')
        end
  end.

End Chat.

End Routes.

(** ** Stand-ins for the libraries

    Instances of the library interfaces on which the engine can be run. *)

Module Instances.
Import Corpus Ranker Orchestrator.

(** A stable ascending argsort by insertion, which is what [numpy] does on
    the short arrays of its scalar sorting path. *)
Fixpoint insert_ascending (key : nat -> Q) (x : nat) (l : list nat)
  : list nat :=
  match l with
  | [] => [x]
  | y :: l' =>
      if Qle_bool (key x) (key y) then x :: l
      else y :: insert_ascending key x l'
  end.

Definition stable_argsort (xs : list Q) : list nat :=
  fold_right (insert_ascending (fun i => nth i xs 0%Q)) []
    (seq 0 (length xs)).

(** A vectorizer whose rows are the words of the texts and whose similarity
    is the share of a document's words that occur in the query. Like TF-IDF
    it fails when no text has a word, and it gives 0 to a document that
    shares no word with the query. *)
Definition overlap (query_row doc_row : list string) : Q :=
  Z.of_nat
    (length (filter (fun w => existsb (String.eqb w) query_row) doc_row))
  # Pos.of_succ_nat (length doc_row).

Definition words_fit_transform (texts : list string)
  : option (list (list string)) :=
  let rows := map Text.split texts in
  if forallb (fun r => match r with [] => true | _ => false end) rows
  then None
  else Some rows.

(** A collaborator that answers every prompt with the same text. *)
Definition constant_generator (answer : string) : Generator :=
  {| send_message := fun history prompt =>
       (inr answer, history ++ [(prompt, answer)]) |}.

(** A collaborator that always fails. *)
Definition failing_generator (msg : string) : Generator :=
  {| send_message := fun history _ => (inl (CollaboratorError msg), history) |}.

Definition words_sklearn : Sklearn :=
  {| row := list string;
     fit_transform := words_fit_transform;
     cosine_similarity := overlap |}.

Definition stable_numpy : Numpy := {| argsort := stable_argsort |}.

(** A state holding the given corpus and nothing else. *)
Definition with_corpus (d : dict) : state := set_pdf_texts d initial_state.

(** The engine on the stand-ins. *)
Definition rank (st : state) (query : string) : exn + list nat :=
  @rank_documents words_sklearn stable_numpy st query.

Definition respond (answer : string) (user_query session_id : string)
    (st : state) : (string * list string) * state :=
  @chatbot_respond words_sklearn stable_numpy (constant_generator answer)
    user_query session_id st.

(** The documents of the running examples. *)
Definition five_documents : state :=
  with_corpus
    [("files/a.txt", "alpha"); ("files/b.txt", "beta gamma");
     ("files/c.txt", "gamma"); ("files/d.txt", "x gamma y");
     ("files/e.txt", "gamma")].

Definition two_documents : state :=
  with_corpus [("files/a.txt", "alpha"); ("files/b.txt", "beta")].

Definition one_document : state :=
  with_corpus
    [("doc1",
      "The sky is blue today. Clouds form from water vapor condensation process.")].

(** A directory that holds [old.txt], and the same directory later, when
    [old.txt] is gone and [new.txt] has come. *)
Definition disk_before : filesystem :=
  {| os_walk := fun root =>
       if String.eqb root "files" then [("files", ["old.txt"])] else [];
     extract_text_from_pdf := fun _ => inl (ValueError "not a PDF");
     extract_text_from_text_file := fun _ => inr "old text" |}.

Definition disk_after : filesystem :=
  {| os_walk := fun root =>
       if String.eqb root "files" then [("files", ["new.txt"])] else [];
     extract_text_from_pdf := fun _ => inl (ValueError "not a PDF");
     extract_text_from_text_file := fun _ => inr "new text" |}.

(** The stand-in vectorizer with an [argsort] of which only this is known:
    it returns the positions in ascending order of their values. *)
Definition any_argsort_library : Library :=
  {| library_row := list string;
     fit_transform_call := fun texts tfidf_matrix =>
       tfidf_matrix = words_fit_transform texts;
     cosine_similarity_call := fun query_row docs cosine_sim =>
       cosine_sim = map (overlap query_row) docs;
     argsort_call := fun xs sorted =>
       Permutation sorted (seq 0 (length xs)) /\
       StronglySorted (fun i j => (nth i xs 0 <= nth j xs 0)%Q) sorted |}.

(** A directory with a text file, a file of another type, a PDF that
    cannot be read, and a text file in a subdirectory. *)
Definition disk_mixed : filesystem :=
  {| os_walk := fun root =>
       if String.eqb root "files"
       then [("files", ["a.txt"; "notes.md"; "b.pdf"]);
             ("files/sub", ["c.txt"])]
       else [];
     extract_text_from_pdf := fun _ => inl (ValueError "EOF marker not found");
     extract_text_from_text_file :=
       fun path => inr ("text of " ++ path)%string |}.

(** A corpus loaded before, with a text for the PDF and a document that is
    no longer on the disk. *)
Definition loaded_before : state :=
  with_corpus
    [("files/b.pdf", "old text of b"); ("files/gone.txt", "text of gone")].

End Instances.

(** * Properties *)

(** ** Sorting facts *)

Module SortFacts.
Import Ranker Instances.

Lemma insert_descending_permutation key x l :
  Permutation (insert_descending key x l) (x :: l).
Proof.
  induction l as [|y l IH]; simpl; [reflexivity|].
  destruct (Qle_bool (key y) (key x)); [reflexivity|].
  rewrite IH. apply perm_swap.
Qed.

Lemma sorted_descending_permutation key l :
  Permutation (sorted_descending key l) l.
Proof.
  induction l as [|x l IH]; simpl; [reflexivity|].
  rewrite insert_descending_permutation. by constructor.
Qed.

(** Sorting a list that is already in descending order leaves it as it is. *)
Lemma sorted_descending_id key l :
  StronglySorted (fun i j => (key j <= key i)%Q) l ->
  sorted_descending key l = l.
Proof.
  induction 1 as [|x l Hl IH Hx]; simpl; [reflexivity|].
  rewrite IH. destruct l as [|y l]; simpl; [reflexivity|].
  inversion Hx as [|? ? Hy _]; subst.
  apply Qle_bool_iff in Hy. by rewrite Hy.
Qed.

Lemma StronglySorted_rev {A} (R : A -> A -> Prop) l :
  StronglySorted R l -> StronglySorted (fun x y => R y x) (rev l).
Proof.
  induction 1 as [|x l Hl IH Hx]; simpl; [constructor|].
  apply StronglySorted_app. split_and!; [|done|repeat constructor].
  intros x1 x2 H1 H2. apply list_elem_of_singleton in H2 as ->.
  rewrite Forall_forall in Hx. apply Hx.
  apply list_elem_of_In, in_rev. by apply list_elem_of_In.
Qed.

Lemma StronglySorted_firstn {A} (R : A -> A -> Prop) n l :
  StronglySorted R l -> StronglySorted R (firstn n l).
Proof.
  intros H. rewrite <- (firstn_skipn n l) in H.
  by apply StronglySorted_app_1_l in H.
Qed.

Lemma insert_ascending_permutation key x l :
  Permutation (insert_ascending key x l) (x :: l).
Proof.
  induction l as [|y l IH]; simpl; [reflexivity|].
  destruct (Qle_bool (key x) (key y)); [reflexivity|].
  rewrite IH. apply perm_swap.
Qed.

Lemma insert_ascending_sorted key x l :
  StronglySorted (fun i j => (key i <= key j)%Q) l ->
  StronglySorted (fun i j => (key i <= key j)%Q) (insert_ascending key x l).
Proof.
  induction 1 as [|y l Hl IH Hy]; simpl; [repeat constructor|].
  destruct (Qle_bool (key x) (key y)) eqn:E.
  - apply Qle_bool_iff in E. constructor; [by constructor|].
    constructor; [done|].
    eapply Forall_impl; [exact Hy|]. intros z Hz. simpl in Hz.
    by apply Qle_trans with (key y).
  - constructor; [done|].
    rewrite (insert_ascending_permutation key x l).
    constructor; [|done].
    destruct (Qlt_le_dec (key y) (key x)) as [Hlt|Hle].
    + by apply Qlt_le_weak.
    + apply Qle_bool_iff in Hle. congruence.
Qed.

Lemma StronglySorted_weaken {A} (R1 R2 : A -> A -> Prop) l :
  (forall x y, R1 x y -> R2 x y) ->
  StronglySorted R1 l -> StronglySorted R2 l.
Proof.
  intros HR. induction 1 as [|x l Hl IH Hx]; constructor; [done|].
  eapply Forall_impl; [exact Hx|]. apply HR.
Qed.

Lemma insert_ascending_stable key x l :
  Forall (fun y => x < y) l ->
  StronglySorted (by_value_then_position key) l ->
  StronglySorted (by_value_then_position key) (insert_ascending key x l).
Proof.
  intros Hx Hl. revert Hx.
  induction Hl as [|y l Hl IH Hy]; simpl; intros Hx; [repeat constructor|].
  apply Forall_cons in Hx as [Hxy Hx].
  destruct (Qle_bool (key x) (key y)) eqn:E.
  - apply Qle_bool_iff in E.
    assert (by_value_then_position key x y) as Hfirst.
    { destruct (Qlt_le_dec (key x) (key y)) as [Hlt|Hge]; [by left|].
      right. split; [lra|done]. }
    constructor; [by constructor|]. constructor; [done|].
    eapply Forall_impl; [exact Hy|]. intros z Hz. simpl in Hz.
    destruct Hfirst as [H1|[H1 H1']], Hz as [H2|[H2 H2']];
      unfold by_value_then_position; [left; lra..|right; split; [lra|lia]].
  - assert (key y < key x)%Q as Hlt.
    { destruct (Qlt_le_dec (key y) (key x)) as [?|Hle]; [done|].
      apply Qle_bool_iff in Hle. congruence. }
    constructor; [by apply IH|].
    rewrite (insert_ascending_permutation key x l).
    constructor; [by left|done].
Qed.

Lemma insert_ascending_elem key x l y :
  y ∈ insert_ascending key x l -> y = x \/ y ∈ l.
Proof.
  rewrite (insert_ascending_permutation key x l). by intros ?%elem_of_cons.
Qed.

Lemma stable_argsort_stable xs :
  StronglySorted (by_value_then_position (fun i => nth i xs 0%Q))
    (stable_argsort xs).
Proof.
  unfold stable_argsort. generalize 0 as start.
  induction (length xs) as [|n IH]; intros start; simpl; [constructor|].
  apply insert_ascending_stable; [|apply IH].
  apply Forall_forall. intros y Hy.
  assert (y ∈ seq (S start) n) as Hin.
  { revert Hy. generalize (seq (S start) n) as l.
    induction l as [|z l IHl]; simpl; [done|].
    intros [->|Hy]%insert_ascending_elem.
    - by left.
    - right. by apply IHl. }
  apply elem_of_seq in Hin. lia.
Qed.

Lemma stable_argsort_permutation xs :
  Permutation (stable_argsort xs) (seq 0 (length xs)).
Proof.
  unfold stable_argsort. induction (seq 0 (length xs)) as [|i l IH]; simpl.
  - reflexivity.
  - rewrite insert_ascending_permutation. by constructor.
Qed.

Lemma stable_argsort_ascending xs :
  StronglySorted (fun i j => (nth i xs 0 <= nth j xs 0)%Q) (stable_argsort xs).
Proof.
  unfold stable_argsort. induction (seq 0 (length xs)) as [|i l IH]; simpl.
  - constructor.
  - by apply (insert_ascending_sorted (fun i => nth i xs 0%Q)).
Qed.

End SortFacts.

(** ** The stand-ins meet the library interfaces *)

Module InstanceFacts.
Import Ranker Instances SortFacts.

Lemma words_fit_transform_shape texts tfidf_matrix :
  words_fit_transform texts = Some tfidf_matrix ->
  length tfidf_matrix = length texts.
Proof.
  unfold words_fit_transform. case_match; [done|].
  intros [= <-]. apply length_map.
Qed.

Lemma words_sklearn_shape : fit_transform_shape words_sklearn.
Proof. exact words_fit_transform_shape. Qed.

Lemma stable_numpy_permutation : argsort_permutation stable_numpy.
Proof. exact stable_argsort_permutation. Qed.

Lemma stable_numpy_ascending : argsort_ascending stable_numpy.
Proof. exact stable_argsort_ascending. Qed.

Lemma stable_numpy_Stable : Stable stable_numpy.
Proof. exact stable_argsort_stable. Qed.

End InstanceFacts.


(** ** The relevance ranker *)

Module RankFacts.
Import Ranker SortFacts.

Section RankerFacts.
Context {sk : Sklearn} {np : Numpy}.
Hypothesis sk_shape : fit_transform_shape sk.
Hypothesis np_permutation : argsort_permutation np.
Hypothesis np_ascending : argsort_ascending np.

Lemma similarities_length tfidf_matrix cosine_sim :
  similarities tfidf_matrix = inr cosine_sim ->
  S (length cosine_sim) = length tfidf_matrix.
Proof.
  unfold similarities.
  destruct tfidf_matrix as [|r0 rows _] using rev_ind; [done|].
  rewrite rev_app_distr. simpl. intros [= <-].
  rewrite removelast_last, length_map, length_app. simpl. lia.
Qed.

(** A call that returns has passed the three guards and the vectorizer, and
    what it returns is the head of the reversed argsort: [nlargest] finds
    its input already in descending order. *)
Lemma rank_documents_inr st query ranked_docs :
  rank_documents st query = inr ranked_docs ->
  ranked_docs = firstn 3 (rev (argsort (cosine_sim_of st query))) /\
  length (cosine_sim_of st query) = length (pdf_texts st).
Proof.
  unfold rank_documents, cosine_sim_of.
  destruct (pdf_texts st) as [|kv d] eqn:Hd; [done|].
  destruct (String.eqb _ _); [done|].
  destruct (fit_transform _) as [M|] eqn:HM; [|done].
  destruct (length M <? 2); [done|].
  destruct (similarities M) as [e|sims] eqn:Hs; [done|].
  intros [= <-]. split.
  - unfold nlargest. f_equal. apply sorted_descending_id.
    apply (StronglySorted_rev _ _ (np_ascending sims)).
  - apply similarities_length in Hs. apply sk_shape in HM.
    rewrite length_app in HM. unfold values in HM.
    rewrite length_map in HM. simpl in *. lia.
Qed.

Lemma ranked_permutation_prefix st query ranked_docs :
  rank_documents st query = inr ranked_docs ->
  exists rest,
    Permutation (ranked_docs ++ rest) (seq 0 (length (pdf_texts st))).
Proof.
  intros [-> Hlen]%rank_documents_inr.
  exists (skipn 3 (rev (argsort (cosine_sim_of st query)))).
  rewrite firstn_skipn, <- Permutation_rev.
  rewrite (np_permutation (cosine_sim_of st query)). by rewrite Hlen.
Qed.

Lemma ranked_in_range st query ranked_docs :
  rank_documents st query = inr ranked_docs ->
  Forall (fun idx => idx < length (pdf_texts st)) ranked_docs.
Proof.
  intros [rest Hp]%ranked_permutation_prefix.
  apply Forall_forall. intros idx Hidx.
  assert (idx ∈ seq 0 (length (pdf_texts st))) as Hin.
  { rewrite <- Hp. apply elem_of_app. by left. }
  apply elem_of_seq in Hin. lia.
Qed.

Lemma ranked_NoDup st query ranked_docs :
  rank_documents st query = inr ranked_docs -> NoDup ranked_docs.
Proof.
  intros [rest Hp]%ranked_permutation_prefix.
  assert (NoDup (ranked_docs ++ rest)) as Hnd.
  { rewrite Hp. apply NoDup_seq. }
  by apply NoDup_app in Hnd as [? _].
Qed.

Lemma ranked_length st query ranked_docs :
  rank_documents st query = inr ranked_docs ->
  length ranked_docs = min 3 (length (pdf_texts st)).
Proof.
  intros [-> Hlen]%rank_documents_inr.
  rewrite length_take, length_rev.
  by rewrite (Permutation_length (np_permutation _)), length_seq, Hlen.
Qed.

(** Distinct positions of a dictionary name distinct keys. *)
Lemma identities_NoDup st ranked_docs :
  NoDup (keys (pdf_texts st)) ->
  Forall (fun idx => idx < length (pdf_texts st)) ranked_docs ->
  NoDup ranked_docs ->
  NoDup (identities st ranked_docs).
Proof.
  intros Hkeys Hrange Hnd. unfold identities.
  induction Hnd as [|idx l Hnotin Hnd IH]; simpl; [constructor|].
  apply Forall_cons in Hrange as [Hidx Hrange].
  constructor; [|by apply IH].
  intros Hin. apply Hnotin.
  apply list_elem_of_In, in_map_iff in Hin as (j & Heq & Hj).
  apply list_elem_of_In in Hj.
  rewrite Forall_forall in Hrange. specialize (Hrange j Hj).
  assert (length (keys (pdf_texts st)) = length (pdf_texts st)) as Hlen
    by apply length_map.
  destruct (lookup_lt_is_Some_2 (keys (pdf_texts st)) idx) as [k Hk]; [lia|].
  destruct (lookup_lt_is_Some_2 (keys (pdf_texts st)) j) as [k' Hk']; [lia|].
  rewrite (nth_lookup_Some _ _ _ _ Hk), (nth_lookup_Some _ _ _ _ Hk') in Heq.
  subst k'. by rewrite (NoDup_lookup _ _ _ _ Hkeys Hk Hk').
Qed.

Lemma identities_in_corpus st ranked_docs :
  Forall (fun idx => idx < length (pdf_texts st)) ranked_docs ->
  Forall (fun k => k ∈ keys (pdf_texts st)) (identities st ranked_docs).
Proof.
  intros Hrange. unfold identities. apply Forall_forall. intros k Hk.
  apply list_elem_of_In, in_map_iff in Hk as (idx & <- & Hidx).
  apply list_elem_of_In in Hidx.
  rewrite Forall_forall in Hrange. specialize (Hrange idx Hidx).
  apply list_elem_of_In, nth_In. unfold keys. by rewrite length_map.
Qed.

(** A query of whitespace strips to the empty string. *)
Lemma lstrip_chars_blank l :
  forallb Text.isspace l = true -> Text.lstrip_chars l = [].
Proof.
  induction l as [|c l IH]; simpl; [done|].
  intros [Hc Hl]%andb_true_iff. rewrite Hc. by apply IH.
Qed.

Lemma strip_blank query :
  forallb Text.isspace (Text.chars query) = true -> Text.strip query = "".
Proof.
  intros H. unfold Text.strip. by rewrite (lstrip_chars_blank _ H).
Qed.

End RankerFacts.
End RankFacts.

Module RankerSpec.
Import Ranker SortFacts RankFacts Instances InstanceFacts.

Section RankerClaims.
Context {sk : Sklearn} {np : Numpy}.
Hypothesis sk_shape : fit_transform_shape sk.
Hypothesis np_permutation : argsort_permutation np.
Hypothesis np_ascending : argsort_ascending np.

(** C1. Whenever [rank_documents] returns, over a corpus whose keys are
    distinct (as the keys of a dictionary are), it returns [min 3 n]
    positions of the [n] documents: 3, or all of them when there are fewer
    than 3. The documents at these positions are documents of the corpus,
    and no document is named twice. *)
Theorem rank_returns_at_most_three st query ranked_docs :
  NoDup (keys (pdf_texts st)) ->
  rank_documents st query = inr ranked_docs ->
  length (identities st ranked_docs) = min 3 (length (pdf_texts st)) /\
  length (identities st ranked_docs) <= 3 /\
  Forall (fun k => k ∈ keys (pdf_texts st)) (identities st ranked_docs) /\
  NoDup (identities st ranked_docs) /\
  Forall (fun idx => idx < length (pdf_texts st)) ranked_docs /\
  NoDup ranked_docs.
Proof.
  intros Hkeys Hrank.
  assert (length ranked_docs = min 3 (length (pdf_texts st))) as Hlen
    by (eapply ranked_length; eauto).
  assert (Forall (fun idx => idx < length (pdf_texts st)) ranked_docs)
    as Hrange by (eapply ranked_in_range; eauto).
  assert (NoDup ranked_docs) as Hnd by (eapply ranked_NoDup; eauto).
  unfold identities at 1 2. rewrite length_map.
  split_and!; [done|lia| |by apply identities_NoDup|done|done].
  by apply identities_in_corpus.
Qed.

(** C2, as the code has it. Whenever [rank_documents] returns, the returned
    positions are in descending order of similarity, and they are the first
    three of the ascending argsort read backwards. Documents of equal
    similarity therefore come in the reverse of the order the argsort gives
    them: under a stable argsort the later document of the corpus comes
    first. *)
Theorem rank_descending_ties_reversed st query ranked_docs :
  rank_documents st query = inr ranked_docs ->
  StronglySorted
    (fun i j => (score st query j <= score st query i)%Q) ranked_docs /\
  ranked_docs = firstn 3 (rev (argsort (cosine_sim_of st query))) /\
  (Stable np ->
   StronglySorted
     (fun i j => (score st query i == score st query j)%Q -> j < i)
     ranked_docs).
Proof.
  intros Hrank.
  destruct (rank_documents_inr sk_shape np_ascending _ _ _ Hrank) as [-> _].
  split_and!; [|done|].
  - apply StronglySorted_firstn.
    apply (StronglySorted_rev _ _ (np_ascending _)).
  - intros Hstable. apply StronglySorted_firstn.
    eapply StronglySorted_weaken;
      [|apply (StronglySorted_rev _ _ (Hstable (cosine_sim_of st query)))].
    unfold score. intros i j [Hlt|[_ Hlt]] Heq; [lra|done].
Qed.

(** C6, as the code has it. Over a corpus that holds a document, a query
    that is empty or made of whitespace only makes [rank_documents] fail
    with [EmptyQuery]. Over the empty corpus every query, blank or not,
    fails with [EmptyCorpus]: that guard comes first. *)
Theorem rank_blank_query st query :
  (pdf_texts st <> [] ->
   forallb Text.isspace (Text.chars query) = true ->
   rank_documents st query = inl EmptyQuery) /\
  (pdf_texts st = [] -> rank_documents st query = inl EmptyCorpus).
Proof.
  unfold rank_documents. split.
  - intros Hne Hblank. destruct (pdf_texts st); [done|].
    by rewrite (strip_blank _ Hblank).
  - by intros ->.
Qed.

(** C7, as the code has it. [rank_documents] never fails with
    [InsufficientCorpus]: where that guard stands the matrix has a row for
    each document and one for the query, and the empty corpus was turned
    away before. A corpus of a single document is ranked like any other:
    with a query that is not blank and a vectorizer that succeeds, the
    result is that document. *)
Theorem rank_never_insufficient st query :
  rank_documents st query <> inl InsufficientCorpus /\
  (forall k text,
     pdf_texts st = [(k, text)] ->
     Text.strip query <> "" ->
     fit_transform [text; query] <> None ->
     rank_documents st query = inr [0]).
Proof.
  split.
  - unfold rank_documents.
    destruct (pdf_texts st) as [|kv d] eqn:Hd; [done|].
    destruct (String.eqb _ _); [done|].
    destruct (fit_transform _) as [M|] eqn:HM; [|done].
    apply sk_shape in HM. rewrite length_app in HM. simpl in HM.
    destruct (Nat.ltb_spec (length M) 2) as [Hlt|_]; [lia|].
    unfold similarities. destruct (rev M) eqn:Hrev; [|done].
    apply (f_equal (@length _)) in Hrev. rewrite length_rev in Hrev.
    simpl in Hrev. lia.
  - intros k text Hd Hq Hfit.
    destruct (rank_documents st query) as [e|ranked_docs] eqn:Hrank.
    + exfalso. revert Hrank. unfold rank_documents. rewrite Hd. simpl.
      destruct (String.eqb_spec (Text.strip query) ""); [done|].
      destruct (fit_transform _) as [M|] eqn:HM; [|done].
      apply sk_shape in HM. simpl in HM.
      destruct M as [|r0 [|r1 [|r2 M]]]; done.
    + destruct (rank_documents_inr sk_shape np_ascending _ _ _ Hrank)
        as [-> Hlen].
      rewrite Hd in Hlen. simpl in Hlen.
      pose proof (np_permutation (cosine_sim_of st query)) as Hp.
      rewrite Hlen in Hp. simpl in Hp.
      apply Permutation_singleton_r in Hp. by rewrite Hp.
Qed.

End RankerClaims.

Lemma five_documents_keys : NoDup (keys (pdf_texts five_documents)).
Proof. apply (bool_decide_unpack _). vm_compute. reflexivity. Defined.

Lemma rank_returns_at_most_three_witness :
  rank five_documents "gamma" = inr [4; 2; 1] /\
  length (identities five_documents [4; 2; 1]) = 3 /\
  NoDup (identities five_documents [4; 2; 1]).
Proof.
  assert (rank five_documents "gamma" = inr [4; 2; 1]) as Hrank
    by (vm_compute; reflexivity).
  split; [exact Hrank|].
  destruct (@rank_returns_at_most_three words_sklearn stable_numpy
              words_sklearn_shape stable_numpy_permutation
              stable_numpy_ascending
              five_documents "gamma" [4; 2; 1] five_documents_keys Hrank)
    as (Hlen & _ & _ & Hnd & _).
  split; [exact Hlen|exact Hnd].
Defined.

Lemma rank_descending_ties_reversed_witness :
  rank five_documents "gamma" = inr [4; 2; 1] /\
  StronglySorted
    (fun i j =>
       (@score words_sklearn five_documents "gamma" i
        == @score words_sklearn five_documents "gamma" j)%Q -> j < i)
    [4; 2; 1].
Proof.
  assert (rank five_documents "gamma" = inr [4; 2; 1]) as Hrank
    by (vm_compute; reflexivity).
  split; [exact Hrank|].
  destruct (@rank_descending_ties_reversed words_sklearn stable_numpy
              words_sklearn_shape stable_numpy_ascending
              five_documents "gamma" [4; 2; 1] Hrank) as (_ & _ & Hties).
  exact (Hties stable_numpy_Stable).
Defined.

(** Against C2 as stated: two documents of equal similarity come back in
    the reverse of their corpus order. *)
Lemma ties_not_in_corpus_order :
  rank two_documents "gamma" = inr [1; 0] /\
  (@score words_sklearn two_documents "gamma" 1
   == @score words_sklearn two_documents "gamma" 0)%Q /\
  ~ StronglySorted
      (fun i j =>
         (@score words_sklearn two_documents "gamma" i
          == @score words_sklearn two_documents "gamma" j)%Q -> i < j)
      [1; 0].
Proof.
  split_and!; [by vm_compute|by vm_compute|].
  intros H. inversion H as [|? ? _ H0]; subst.
  inversion H0 as [|? ? H10 _]; subst.
  assert (1 < 0) as Hlt by (apply H10; by vm_compute). lia.
Qed.

Lemma rank_blank_query_witness :
  rank one_document "   " = inl EmptyQuery.
Proof.
  apply (@rank_blank_query words_sklearn stable_numpy one_document "   ").
  - vm_compute. discriminate.
  - vm_compute. reflexivity.
Defined.

(** Against C6 as stated: over the empty corpus the empty query fails with
    [EmptyCorpus], which is not [EmptyQuery]. *)
Lemma blank_query_on_empty_corpus :
  rank initial_state "" = inl EmptyCorpus /\ EmptyCorpus <> EmptyQuery.
Proof. split; [by vm_compute|discriminate]. Qed.

Lemma rank_never_insufficient_witness :
  rank one_document "why is the sky blue" = inr [0].
Proof.
  eapply (@rank_never_insufficient words_sklearn stable_numpy
            words_sklearn_shape stable_numpy_permutation
            stable_numpy_ascending one_document "why is the sky blue").
  - vm_compute. reflexivity.
  - vm_compute. discriminate.
  - vm_compute. discriminate.
Defined.

(** Against C7 as stated: the corpus of a single document does not fail
    with [InsufficientCorpus]; it is ranked. *)
Lemma single_document_is_ranked :
  length (pdf_texts one_document) = 1 /\
  rank one_document "why is the sky blue" = inr [0] /\
  rank one_document "why is the sky blue" <> inl InsufficientCorpus.
Proof. split_and!; [by vm_compute|by vm_compute|by vm_compute]. Qed.

End RankerSpec.

(** ** The follow-up question generator *)

Module FollowUpSpec.
Import Text FollowUp.

Lemma not_in_spec question previous_questions :
  not_in question previous_questions = true <->
  question ∉ previous_questions.
Proof.
  unfold not_in. rewrite negb_true_iff, <- not_true_iff_false, existsb_exists.
  split.
  - intros H Hin. apply H. exists question.
    split; [by apply list_elem_of_In|apply String.eqb_refl].
  - intros H (q & Hq & Heq). apply String.eqb_eq in Heq as ->.
    by apply H, list_elem_of_In.
Qed.

Lemma visit_accepted previous_questions sentence follow_up_questions :
  visit previous_questions sentence follow_up_questions =
  follow_up_questions ++ accepted previous_questions sentence.
Proof.
  unfold visit, accepted.
  destruct (20 <? _); simpl; [|by rewrite app_nil_r].
  destruct (not_in _ _); [done|by rewrite app_nil_r].
Qed.

Lemma accepted_length previous_questions sentence :
  length (accepted previous_questions sentence) <= 1.
Proof. unfold accepted. case_match; simpl; lia. Qed.

(** The loop with its [break] keeps the first three accepted questions. *)
Lemma follow_up_loop_firstn previous_questions sentences follow_up_questions :
  length follow_up_questions < 3 ->
  follow_up_loop previous_questions sentences follow_up_questions =
  firstn 3
    (follow_up_questions ++ flat_map (accepted previous_questions) sentences).
Proof.
  revert follow_up_questions.
  induction sentences as [|sentence rest IH]; intros acc Hacc;
    cbn [follow_up_loop flat_map].
  - rewrite app_nil_r. symmetry. apply firstn_all2. lia.
  - rewrite visit_accepted.
    pose proof (accepted_length previous_questions sentence) as H1.
    rewrite app_assoc.
    destruct (Nat.leb_spec 3 (length (acc ++ accepted previous_questions sentence)))
      as [Hfull|Hroom].
    + rewrite length_app in Hfull.
      rewrite firstn_app.
      rewrite (firstn_all2 (n := 3) (acc ++ _)) by (rewrite length_app; lia).
      replace (3 - _) with 0 by (rewrite length_app; lia).
      simpl. by rewrite app_nil_r.
    + by apply IH.
Qed.

Lemma generate_firstn relevant_text previous_questions :
  generate_follow_up_questions relevant_text previous_questions =
  firstn 3
    (flat_map (accepted previous_questions) (sentences_of relevant_text)).
Proof.
  unfold generate_follow_up_questions.
  rewrite follow_up_loop_firstn by (simpl; lia). done.
Qed.

(** Never more than three questions. *)
Lemma generate_at_most_three relevant_text previous_questions :
  length (generate_follow_up_questions relevant_text previous_questions) <= 3.
Proof. rewrite generate_firstn, length_take. lia. Qed.

(** Never a question of [previous_questions]. *)
Lemma generate_avoids_previous relevant_text previous_questions :
  Forall (fun question => question ∉ previous_questions)
    (generate_follow_up_questions relevant_text previous_questions).
Proof.
  rewrite generate_firstn. apply Forall_take.
  apply Forall_forall. intros q Hq.
  apply list_elem_of_In, in_flat_map in Hq as (sentence & _ & Hq).
  unfold accepted in Hq.
  destruct (20 <? _); simpl in Hq; [|done].
  destruct (not_in _ _) eqn:E; simpl in Hq; [|done].
  destruct Hq as [<-|[]]. by apply not_in_spec.
Qed.

(** C5, where the code departs from it. Two sentences that open with the
    same five words yield the same question twice: a candidate is compared
    with [previous_questions] only, not with the questions already accepted
    in this call. *)
Theorem repeated_opening_repeats_question :
  generate_follow_up_questions
    "The quick brown fox jumps over the lazy dog. The quick brown fox jumps over the fence."
    [] =
  ["What about The quick brown fox jumps?";
   "What about The quick brown fox jumps?"].
Proof. vm_compute. reflexivity. Qed.

(** C8, as the code has it. The questions generated are the first three of
    those the sentences yield in order. A sentence of more than 20
    characters after trimming, whose question is not in
    [previous_questions], yields "What about ", its first 5 words and "?";
    a sentence of 20 characters or fewer after trimming yields nothing. *)
Theorem sentences_over_twenty_are_asked relevant_text previous_questions :
  generate_follow_up_questions relevant_text previous_questions =
  firstn 3
    (flat_map (accepted previous_questions) (sentences_of relevant_text)) /\
  (forall sentence,
     20 < String.length (strip sentence) ->
     question_of (strip sentence) ∉ previous_questions ->
     accepted previous_questions sentence =
     [("What about " ++ join " " (firstn 5 (split (strip sentence))) ++ "?")
        %string]) /\
  (forall sentence,
     String.length (strip sentence) <= 20 ->
     accepted previous_questions sentence = []).
Proof.
  split_and!; [apply generate_firstn| |].
  - intros sentence Hlong Hnew. unfold accepted.
    apply Nat.ltb_lt in Hlong. apply not_in_spec in Hnew.
    by rewrite Hlong, Hnew.
  - intros sentence Hshort. unfold accepted.
    apply Nat.ltb_ge in Hshort. by rewrite Hshort.
Qed.

Lemma sentences_over_twenty_are_asked_witness :
  accepted [] "Clouds form from water vapor condensation process." =
  ["What about Clouds form from water vapor?"].
Proof.
  destruct (sentences_over_twenty_are_asked "" []) as (_ & Hlong & _).
  apply (Hlong "Clouds form from water vapor condensation process.").
  - vm_compute. lia.
  - apply not_elem_of_nil.
Defined.

(** Against C8 as stated: a sentence of exactly 20 characters yields no
    question. *)
Lemma sentence_of_twenty_characters :
  sentences_of "Cats like warm milk." = ["Cats like warm milk."] /\
  String.length (strip "Cats like warm milk.") = 20 /\
  generate_follow_up_questions "Cats like warm milk." [] = [].
Proof. split_and!; vm_compute; reflexivity. Qed.

End FollowUpSpec.

(** ** The corpus index *)

Module CorpusSpec.
Import Corpus Instances.

Lemma dict_set_keeps_keys k v d k' : k' ∈ keys d -> k' ∈ keys (dict_set k v d).
Proof.
  induction d as [|[k0 v0] d IH]; simpl; [by intros ?%elem_of_nil|].
  intros [->|Hin]%elem_of_cons; destruct (String.eqb_spec k k0); subst; simpl.
  - by left.
  - by left.
  - by right.
  - right. by apply IH.
Qed.

Lemma dict_set_keys k v d k' :
  k' ∈ keys (dict_set k v d) -> k' = k \/ k' ∈ keys d.
Proof.
  induction d as [|[k0 v0] d IH]; simpl.
  - intros [->|[]%elem_of_nil]%elem_of_cons. by left.
  - destruct (String.eqb_spec k k0); subst; simpl.
    + intros [->|Hin]%elem_of_cons; [by left|]. right. by right.
    + intros [->|Hin]%elem_of_cons; [right; by left|].
      destruct (IH Hin); [by left|]. right. by right.
Qed.

(** Assignment keeps the keys of a dictionary distinct. *)
Lemma dict_set_NoDup k v d : NoDup (keys d) -> NoDup (keys (dict_set k v d)).
Proof.
  induction d as [|[k0 v0] d IH]; simpl; intros Hnd.
  - repeat constructor. apply not_elem_of_nil.
  - apply NoDup_cons in Hnd as [Hk0 Hnd].
    destruct (String.eqb_spec k k0); subst; simpl.
    + by constructor.
    + constructor; [|by apply IH].
      intros [->|Hin]%dict_set_keys; done.
Qed.

Lemma load_file_keeps_keys fs root name st k :
  k ∈ keys (pdf_texts st) -> k ∈ keys (pdf_texts (load_file fs root name st)).
Proof.
  intros Hk. unfold load_file.
  destruct (mime_type_of name); [|done].
  repeat case_match; simpl; try done; by apply dict_set_keeps_keys.
Qed.

Lemma load_file_NoDup fs root name st :
  NoDup (keys (pdf_texts st)) ->
  NoDup (keys (pdf_texts (load_file fs root name st))).
Proof.
  intros Hk. unfold load_file.
  destruct (mime_type_of name); [|done].
  repeat case_match; simpl; try done; by apply dict_set_NoDup.
Qed.

(** A property of the state that every step of the scan keeps is kept by
    the whole scan. *)
Lemma load_all_files_invariant (P : state -> Prop) fs st :
  (forall st, P st -> P (set_file_details [] st)) ->
  (forall root name st, P st -> P (load_file fs root name st)) ->
  P st -> P (snd (load_all_files fs st)).
Proof.
  intros Hreset Hstep HP. unfold load_all_files. simpl.
  generalize (os_walk fs FILES_DIRECTORY) as entries.
  generalize (set_file_details [] st) (Hreset st HP).
  intros st0 HP0 entries. revert st0 HP0.
  induction entries as [|[root names] entries IH]; intros st0 HP0; simpl;
    [done|].
  apply IH. unfold load_directory. simpl. clear IH.
  revert st0 HP0. induction names as [|name names IH]; intros st0 HP0; simpl;
    [done|].
  apply IH. by apply Hstep.
Qed.

(** Every document of the corpus before a load is still in it after. *)
Lemma load_all_files_keeps_keys fs st k :
  k ∈ keys (pdf_texts st) -> k ∈ keys (pdf_texts (snd (load_all_files fs st))).
Proof.
  intros Hk.
  apply (load_all_files_invariant (fun st => k ∈ keys (pdf_texts st)));
    [done| |done].
  intros. by apply load_file_keeps_keys.
Qed.

(** The keys of the corpus stay distinct. *)
Lemma load_all_files_NoDup fs st :
  NoDup (keys (pdf_texts st)) ->
  NoDup (keys (pdf_texts (snd (load_all_files fs st)))).
Proof.
  intros Hk.
  apply (load_all_files_invariant (fun st => NoDup (keys (pdf_texts st))));
    [done| |done].
  intros. by apply load_file_NoDup.
Qed.

(** C4, where the code departs from it. [load_all_files] empties
    [file_details] but not [pdf_texts]: after a second load that finds only
    [new.txt], the document of the first load is still in the corpus, while
    the returned list names [new.txt] alone. *)
Theorem reload_keeps_stale_document :
  let st1 := snd (load_all_files disk_before initial_state) in
  let loaded := load_all_files disk_after st1 in
  pdf_texts st1 = [("files/old.txt", "old text")] /\
  map file_path (fst loaded) = ["files/new.txt"] /\
  pdf_texts (snd loaded) =
    [("files/old.txt", "old text"); ("files/new.txt", "new text")].
Proof. vm_compute. by split_and!. Qed.

End CorpusSpec.

(** ** The response orchestrator *)

Module OrchestratorSpec.
Import Ranker RankFacts Orchestrator Instances InstanceFacts RankerSpec.

Section OrchestratorClaims.
Context {sk : Sklearn} {np : Numpy} {gen : Generator}.
Hypothesis sk_shape : fit_transform_shape sk.
Hypothesis np_permutation : argsort_permutation np.
Hypothesis np_ascending : argsort_ascending np.

(** Positions inside the corpus are all found. *)
Lemma gather_in_range texts ranked_docs relevant_text :
  Forall (fun idx => idx < length texts) ranked_docs ->
  exists gathered, gather texts ranked_docs relevant_text = inr gathered.
Proof.
  intros Hrange. revert relevant_text.
  induction Hrange as [|idx rest Hidx _ IH]; intros acc; simpl; [by eexists|].
  destruct (nth_error texts idx) eqn:E; [apply IH|].
  apply nth_error_None in E. lia.
Qed.

(** A failed ranking ends the turn with nothing written. *)
Lemma respond_rank_failure user_query session_id st e :
  rank_documents st user_query = inl e ->
  chatbot_respond user_query session_id st = ((error_answer e, []), st).
Proof.
  intros Hrank. unfold chatbot_respond, respond_body, bind.
  by rewrite Hrank.
Qed.

(** A turn whose ranking succeeds writes its session record, whatever the
    collaborator does afterwards. *)
Lemma respond_rank_success user_query session_id st ranked_docs :
  rank_documents st user_query = inr ranked_docs ->
  exists relevant_text,
    gather (values (pdf_texts st)) ranked_docs "" = inr relevant_text /\
    user_query_history (snd (chatbot_respond user_query session_id st))
      !! session_id =
    Some (turn_record user_query relevant_text
            (previous_questions_of session_id st)).
Proof.
  intros Hrank.
  destruct (gather_in_range (values (pdf_texts st)) ranked_docs "")
    as [text Htext].
  { unfold values. rewrite length_map. eapply ranked_in_range; eauto. }
  exists text. split; [done|].
  unfold chatbot_respond, respond_body, bind, read, write, lift, ret.
  rewrite Hrank, Htext. simpl.
  destruct (send_message _ _) as [[e|response_text] history]; simpl;
    apply lookup_insert_eq.
Qed.

(** No turn touches the corpus. *)
Lemma respond_keeps_corpus user_query session_id st :
  pdf_texts (snd (chatbot_respond user_query session_id st)) = pdf_texts st.
Proof.
  unfold chatbot_respond, respond_body, bind, read, write, lift, ret.
  destruct (rank_documents st user_query); [done|].
  destruct (gather _ _ _); [done|]. simpl.
  by destruct (send_message _ _) as [[e|response_text] history].
Qed.

Lemma rank_documents_reads_corpus st1 st2 query :
  pdf_texts st1 = pdf_texts st2 ->
  rank_documents st1 query = rank_documents st2 query.
Proof.
  intros H. unfold rank_documents. by rewrite H.
Qed.

(** C3. Whenever the ranker fails, [chatbot_respond] returns: its answer is
    the text "Error processing your query: " followed by the message of the
    failure, its list of follow-up questions is empty, and the state is as
    it was. With no document loaded the message is that of the empty
    corpus. *)
Theorem respond_reports_rank_failure user_query session_id st :
  (forall e,
     rank_documents st user_query = inl e ->
     chatbot_respond user_query session_id st =
     (("Error processing your query: " ++ str_exn e, [])%string, st)) /\
  (pdf_texts st = [] ->
   chatbot_respond user_query session_id st =
   (("Error processing your query: No documents found to rank against. Ensure documents are loaded correctly.",
     []), st)).
Proof.
  split.
  - intros e He. by apply respond_rank_failure.
  - intros Hempty.
    rewrite (respond_rank_failure _ _ _ EmptyCorpus); [done|].
    unfold rank_documents. by rewrite Hempty.
Qed.

(** C9, as the code has it. After a turn on a session, a second turn on the
    same session whose ranking succeeds leaves in the store exactly its own
    record: its query, the questions generated from its relevant text, and
    that text. Of the first turn only the questions were read, to keep them
    out of the new ones. A second turn whose ranking fails writes nothing:
    the state is as the first turn left it, and the store still holds the
    record of the first turn when the ranking of the first turn
    succeeded. *)
Theorem second_turn_overwrites_session st q1 q2 session_id :
  let st1 := snd (chatbot_respond q1 session_id st) in
  let st2 := snd (chatbot_respond q2 session_id st1) in
  (forall ranked_docs,
     rank_documents st1 q2 = inr ranked_docs ->
     exists relevant_text,
       gather (values (pdf_texts st1)) ranked_docs "" = inr relevant_text /\
       user_query_history st2 !! session_id =
       Some
         {| Session.query := q2;
            Session.follow_up_questions :=
              FollowUp.generate_follow_up_questions relevant_text
                (previous_questions_of session_id st1);
            Session.relevant_text := relevant_text |}) /\
  (forall e,
     rank_documents st1 q2 = inl e ->
     st2 = st1 /\
     forall ranked_docs,
       rank_documents st q1 = inr ranked_docs ->
       exists relevant_text,
         gather (values (pdf_texts st)) ranked_docs "" = inr relevant_text /\
         user_query_history st2 !! session_id =
         Some
           {| Session.query := q1;
              Session.follow_up_questions :=
                FollowUp.generate_follow_up_questions relevant_text
                  (previous_questions_of session_id st);
              Session.relevant_text := relevant_text |}).
Proof.
  intros st1 st2. split.
  - intros ranked_docs Hrank.
    destruct (respond_rank_success q2 session_id st1 ranked_docs Hrank)
      as (text & Htext & Hrecord).
    by exists text.
  - intros e Hfail.
    assert (st2 = st1) as Hsame.
    { unfold st2. by rewrite (respond_rank_failure _ _ _ _ Hfail). }
    split; [done|]. intros ranked_docs Hrank. rewrite Hsame.
    destruct (respond_rank_success q1 session_id st ranked_docs Hrank)
      as (text & Htext & Hrecord).
    by exists text.
Qed.

End OrchestratorClaims.

Lemma respond_reports_rank_failure_witness :
  respond "fine" "why is the sky blue" "s" initial_state =
  (("Error processing your query: No documents found to rank against. Ensure documents are loaded correctly.",
    []), initial_state).
Proof.
  apply (@respond_reports_rank_failure words_sklearn stable_numpy
           (constant_generator "fine") "why is the sky blue" "s"
           initial_state).
  reflexivity.
Defined.

Lemma second_turn_overwrites_session_witness :
  user_query_history
    (snd (respond "fine" "clouds" "s"
            (snd (respond "fine" "why is the sky blue" "s" one_document))))
    !! "s" =
  Some
    {| Session.query := "clouds";
       Session.follow_up_questions := [];
       Session.relevant_text :=
         "The sky is blue today. Clouds form from water vapor condensation process."
         ++ newline |}.
Proof.
  destruct (@second_turn_overwrites_session words_sklearn stable_numpy
              (constant_generator "fine") words_sklearn_shape
              stable_numpy_permutation stable_numpy_ascending
              one_document "why is the sky blue" "clouds" "s")
    as [Hwritten _].
  destruct (Hwritten [0]) as (text & Htext & Hrecord).
  { vm_compute. reflexivity. }
  vm_compute in Htext. injection Htext as <-.
  unfold respond. etransitivity; [exact Hrecord|].
  vm_compute. reflexivity.
Defined.

(** Against C9 as stated: when the ranking of the second turn fails, here
    on a query of spaces, the store still holds the record of the first
    turn. *)
Lemma failed_turn_keeps_first_record :
  let st1 := snd (respond "fine" "why is the sky blue" "s" one_document) in
  let st2 := snd (respond "fine" "   " "s" st1) in
  fst (respond "fine" "   " "s" st1) =
    ("Error processing your query: Query is empty or contains only whitespace.",
     []) /\
  Session.query <$> user_query_history st2 !! "s" =
    Some "why is the sky blue".
Proof. vm_compute. by split. Qed.

(** When the collaborator fails the answer says so, and the session record
    of the turn is already written. *)
Lemma failed_generation_keeps_session_record :
  let turn :=
    @chatbot_respond words_sklearn stable_numpy (failing_generator "quota")
      "why is the sky blue" "s" one_document in
  fst turn = ("Error processing your query: quota", []) /\
  Session.query <$> user_query_history (snd turn) !! "s" =
    Some "why is the sky blue".
Proof. vm_compute. by split. Qed.

End OrchestratorSpec.

(** ** Two calls of the ranker *)

Module DeterminismSpec.
Import Ranker SortFacts Orchestrator Instances InstanceFacts.

Lemma library_of_deterministic sk np :
  deterministic (fit_transform_call (library_of sk np)) /\
  (forall query_row,
     deterministic (cosine_similarity_call (library_of sk np) query_row)) /\
  deterministic (argsort_call (library_of sk np)).
Proof. split_and!; repeat intro; simpl in *; congruence. Qed.

(** Over libraries that are functions the relation is the function. *)
Lemma rank_call_library_of sk np st query r :
  rank_call (library_of sk np) st query r <->
  @rank_documents sk np st query = r.
Proof.
  split.
  - intros H. unfold rank_documents.
    destruct H as [Hd|Hd Hq|Hd Hq Hfit|M Hd Hq Hfit Hlen
                   |M docs query_row sims sorted Hd Hq Hfit Hlen HM Hcos Hsort];
      simpl in *.
    + by rewrite Hd.
    + destruct (pdf_texts st); [done|]. by rewrite Hq.
    + destruct (pdf_texts st) eqn:E; [done|].
      destruct (String.eqb_spec (Text.strip query) ""); [done|].
      by rewrite <- Hfit.
    + destruct (pdf_texts st) eqn:E; [done|].
      destruct (String.eqb_spec (Text.strip query) ""); [done|].
      rewrite <- Hfit. by destruct (Nat.ltb_spec (length M) 2); [|lia].
    + destruct (pdf_texts st) eqn:E; [done|].
      destruct (String.eqb_spec (Text.strip query) ""); [done|].
      rewrite <- Hfit. destruct (Nat.ltb_spec (length M) 2); [lia|].
      unfold similarities. subst M sims sorted.
      rewrite rev_app_distr. simpl. by rewrite removelast_last.
  - intros <-. unfold rank_documents.
    destruct (pdf_texts st) as [|kv d] eqn:Hd; [by constructor|].
    assert (pdf_texts st <> []) as Hne by by rewrite Hd.
    rewrite <- Hd.
    destruct (String.eqb_spec (Text.strip query) "") as [Hq|Hq];
      [by constructor|].
    destruct (fit_transform _) as [M|] eqn:Hfit;
      [|by apply call_empty_vocabulary].
    destruct (Nat.ltb_spec (length M) 2) as [Hlen|Hlen];
      [by eapply call_insufficient|].
    destruct M as [|query_row docs _] using rev_ind; [simpl in Hlen; lia|].
    unfold similarities. rewrite rev_app_distr. simpl.
    rewrite removelast_last.
    by eapply call_ranked.
Qed.

(** Two calls over the same corpus, with a vectorizer and a similarity
    that are deterministic, agree up to what [argsort] returned to each. *)
Lemma rank_call_agree L st1 st2 query r1 r2 :
  deterministic (fit_transform_call L) ->
  (forall query_row, deterministic (cosine_similarity_call L query_row)) ->
  pdf_texts st1 = pdf_texts st2 ->
  rank_call L st1 query r1 ->
  rank_call L st2 query r2 ->
  r1 = r2 \/
  exists cosine_sim sorted1 sorted2,
    cosine_sim_call L st1 query cosine_sim /\
    argsort_call L cosine_sim sorted1 /\
    argsort_call L cosine_sim sorted2 /\
    r1 = inr (nlargest 3 (rev sorted1) (fun idx => nth idx cosine_sim 0%Q)) /\
    r2 = inr (nlargest 3 (rev sorted2) (fun idx => nth idx cosine_sim 0%Q)).
Proof.
  intros Hfit Hcos Hcorpus H1 H2.
  destruct H1 as [Hd|Hd Hq|Hd Hq Hf|M Hd Hq Hf Hlen
                  |M docs query_row sims sorted Hd Hq Hf Hlen HM Hc Hs];
    destruct H2 as [Hd'|Hd' Hq'|Hd' Hq' Hf'|M' Hd' Hq' Hf' Hlen'
                    |M' docs' query_row' sims' sorted' Hd' Hq' Hf' Hlen' HM'
                       Hc' Hs'];
    rewrite <- ?Hcorpus in *; try (by left); try congruence;
    try (pose proof (Hfit _ _ _ Hf Hf') as Hsame; try discriminate;
         injection Hsame as <-; try lia).
  right. subst M. apply app_inj_tail in HM' as [<- <-].
  pose proof (Hcos _ _ _ _ Hc Hc') as <-.
  exists sims, sorted, sorted'. split_and!; try done.
  by exists (docs ++ [query_row]), docs, query_row.
Qed.

(** C10. For a fixed corpus and a fixed query, two calls of the ranker
    return the same, success or failure, whatever else the two states hold,
    when the libraries answer a call the same way each time: the code
    itself draws on nothing but the corpus, the query and these answers.
    Of [argsort] less is needed when no two documents have the same
    similarity: then any [argsort] that sorts, even one that answers
    differently from call to call, gives the same ranking. *)
Theorem rank_is_deterministic (L : Library) st1 st2 query r1 r2 :
  deterministic (fit_transform_call L) ->
  (forall query_row, deterministic (cosine_similarity_call L query_row)) ->
  pdf_texts st1 = pdf_texts st2 ->
  rank_call L st1 query r1 ->
  rank_call L st2 query r2 ->
  (deterministic (argsort_call L) -> r1 = r2) /\
  (argsort_call_sorts L ->
   (forall cosine_sim,
      cosine_sim_call L st1 query cosine_sim -> no_ties cosine_sim) ->
   r1 = r2).
Proof.
  intros Hfit Hcos Hcorpus H1 H2.
  destruct (rank_call_agree L st1 st2 query r1 r2 Hfit Hcos Hcorpus H1 H2)
    as [Heq|(sims & s1 & s2 & Hsims & Hs1 & Hs2 & -> & ->)]; [done|].
  split.
  - intros Hsort. by rewrite (Hsort _ _ _ Hs1 Hs2).
  - intros Hsorts Hties. specialize (Hties sims Hsims).
    destruct (Hsorts _ _ Hs1) as [Hp1 Hsorted1].
    destruct (Hsorts _ _ Hs2) as [Hp2 Hsorted2].
    assert (s1 = s2) as ->; [|done].
    eapply StronglySorted_unique_strong;
      [|exact Hsorted1|exact Hsorted2|by rewrite Hp1, Hp2].
    intros i j Hi Hj Hij Hji. simpl in Hij, Hji.
    rewrite Hp1 in Hi. rewrite Hp2 in Hj.
    apply elem_of_seq in Hi, Hj.
    apply Hties; [lia|lia|]. by apply Qle_antisym.
Qed.

(** What the first part of C10 asks of [argsort] cannot be dropped when
    documents tie: with an [argsort] that only sorts, two calls over two
    documents of equal similarity may return them in either order. *)
Lemma tied_documents_need_a_deterministic_argsort :
  argsort_call_sorts any_argsort_library /\
  rank_call any_argsort_library two_documents "gamma" (inr [1; 0]) /\
  rank_call any_argsort_library two_documents "gamma" (inr [0; 1]).
Proof.
  split_and!.
  - by intros xs sorted H.
  - refine (call_ranked any_argsort_library two_documents "gamma"
              [["alpha"]; ["beta"]; ["gamma"]] [["alpha"]; ["beta"]]
              ["gamma"] [0 # 2; 0 # 2]%Q [0; 1] _ _ _ _ _ _ _);
      [by vm_compute|by vm_compute|by vm_compute|simpl; lia|done|done|].
    split; [done|]. repeat constructor; by vm_compute.
  - refine (call_ranked any_argsort_library two_documents "gamma"
              [["alpha"]; ["beta"]; ["gamma"]] [["alpha"]; ["beta"]]
              ["gamma"] [0 # 2; 0 # 2]%Q [1; 0] _ _ _ _ _ _ _);
      [by vm_compute|by vm_compute|by vm_compute|simpl; lia|done|done|].
    split; [apply perm_swap|]. repeat constructor; by vm_compute.
Qed.

Lemma rank_is_deterministic_witness :
  rank (snd (respond "fine" "clouds" "s" five_documents)) "gamma" =
  rank five_documents "gamma".
Proof.
  destruct (library_of_deterministic words_sklearn stable_numpy)
    as (Hfit & Hcos & Hsort).
  destruct (rank_is_deterministic (library_of words_sklearn stable_numpy)
              (snd (respond "fine" "clouds" "s" five_documents))
              five_documents "gamma"
              (rank (snd (respond "fine" "clouds" "s" five_documents)) "gamma")
              (rank five_documents "gamma") Hfit Hcos)
    as [Hsame _].
  - vm_compute. reflexivity.
  - by apply rank_call_library_of.
  - by apply rank_call_library_of.
  - exact (Hsame Hsort).
Defined.

End DeterminismSpec.

(** * Further properties *)

(** ** Text primitives *)

Module TextFacts.
Import Text.

Lemma str_app l1 l2 : str (l1 ++ l2) = (str l1 ++ str l2)%string.
Proof. induction l1 as [|c l1 IH]; simpl; [done|]. by rewrite IH. Qed.

Lemma append_nil_r (s : string) : (s ++ "")%string = s.
Proof.
  induction s as [|c s IH]; [done|].
  change (String c (s ++ "")%string = String c s). by rewrite IH.
Qed.

Lemma append_assoc (s1 s2 s3 : string) :
  ((s1 ++ s2) ++ s3)%string = (s1 ++ s2 ++ s3)%string.
Proof.
  induction s1 as [|c s1 IH]; [done|].
  change (String c ((s1 ++ s2) ++ s3)%string = String c (s1 ++ s2 ++ s3)%string).
  by rewrite IH.
Qed.

Lemma concat_empty_cons (x : string) (l : list string) :
  String.concat "" (x :: l) = (x ++ String.concat "" l)%string.
Proof. destruct l; simpl; [by rewrite append_nil_r|done]. Qed.

Lemma chars_str l : chars (str l) = l.
Proof. apply list_ascii_of_string_of_list_ascii. Qed.

Lemma str_chars s : str (chars s) = s.
Proof. apply string_of_list_ascii_of_string. Qed.

Lemma length_str l : String.length (str l) = length l.
Proof. induction l as [|c l IH]; simpl; [done|]. by rewrite IH. Qed.

Lemma length_chars s : length (chars s) = String.length s.
Proof. by rewrite <- (str_chars s) at 2; rewrite length_str. Qed.

Lemma lstrip_chars_length l : length (lstrip_chars l) <= length l.
Proof.
  induction l as [|c l IH]; simpl; [done|].
  destruct (isspace c); simpl; lia.
Qed.

(** What is left of a stripped list starts with a character that is not
    whitespace. *)
Lemma lstrip_chars_head l :
  match lstrip_chars l with
  | [] => True
  | c :: _ => isspace c = false
  end.
Proof.
  induction l as [|c l IH]; simpl; [done|].
  by destruct (isspace c) eqn:E.
Qed.

Lemma lstrip_chars_nil l :
  lstrip_chars l = [] -> forallb isspace l = true.
Proof.
  induction l as [|c l IH]; simpl; [done|].
  destruct (isspace c); [done|discriminate].
Qed.

Lemma strip_length s : String.length (strip s) <= String.length s.
Proof.
  unfold strip, rstrip_chars. rewrite length_str, length_rev.
  etransitivity; [apply lstrip_chars_length|]. rewrite length_rev.
  etransitivity; [apply lstrip_chars_length|]. by rewrite length_chars.
Qed.

(** A string that strips to nothing is made of whitespace. *)
Lemma strip_empty s : strip s = "" -> forallb isspace (chars s) = true.
Proof.
  unfold strip, rstrip_chars. intros H.
  apply (f_equal chars) in H. rewrite chars_str in H. simpl in H.
  apply (f_equal (@rev _)) in H. rewrite rev_involutive in H. simpl in H.
  apply lstrip_chars_nil in H.
  apply lstrip_chars_nil.
  destruct (lstrip_chars (chars s)) as [|c l] eqn:E; [done|].
  pose proof (lstrip_chars_head (chars s)) as Hc. rewrite E in Hc.
  rewrite forallb_forall in H. specialize (H c).
  rewrite H in Hc; [done|]. apply in_rev. rewrite rev_involutive. by left.
Qed.

Lemma split_chars_words cur l :
  forallb (fun c => negb (isspace c)) cur = true ->
  Forall is_word (split_chars cur l).
Proof.
  revert cur. induction l as [|c l IH]; intros cur Hcur; simpl.
  - destruct cur as [|c0 cur]; [constructor|]. repeat constructor.
    + intros H. apply (f_equal chars) in H. rewrite chars_str in H.
      apply (f_equal (@length _)) in H. rewrite length_rev in H. done.
    + rewrite chars_str. apply forallb_forall. intros x Hx%in_rev.
      by apply (proj1 (forallb_forall _ _) Hcur).
  - destruct (isspace c) eqn:Ec.
    + destruct cur as [|c0 cur]; [by apply IH|].
      constructor; [|by apply IH]. split.
      * intros H. apply (f_equal chars) in H. rewrite chars_str in H.
        apply (f_equal (@length _)) in H. rewrite length_rev in H. done.
      * rewrite chars_str. apply forallb_forall. intros x Hx%in_rev.
        by apply (proj1 (forallb_forall _ _) Hcur).
    + apply IH. simpl. by rewrite Ec.
Qed.

Lemma split_words s : Forall is_word (split s).
Proof. by apply split_chars_words. Qed.

(** Only a string of whitespace has no word. *)
Lemma split_chars_nil cur l :
  split_chars cur l = [] -> cur = [] /\ forallb isspace l = true.
Proof.
  revert cur. induction l as [|c l IH]; intros cur; simpl.
  - by destruct cur.
  - destruct (isspace c) eqn:Ec.
    + destruct cur; [|done]. intros H. by apply IH in H as [_ ?].
    + intros H. apply IH in H as [? _]. done.
Qed.

Lemma sub_digit_groups_replaced st l :
  match st with
  | AfterSep sep =>
      exists x out,
        sub_digit_groups st l = x :: out /\
        (x = sep \/ x = " "%char) /\ Forall2 replaced l out
  | _ => Forall2 replaced l (sub_digit_groups st l)
  end.
Proof.
  revert st. induction l as [|c l IH]; intros st.
  - destruct st; simpl; try constructor. eexists _, _. by split_and!; [|left|].
  - assert (replaced c c) as Hcc by by left.
    pose proof (IH Outside) as HO. pose proof (IH InFirst) as HF.
    pose proof (IH InSecond) as HS. pose proof (IH (AfterSep c)) as HA.
    simpl in HO, HF, HS, HA.
    destruct st; simpl.
    + destruct (isdecimal c); by constructor.
    + destruct (isdecimal c); [by constructor|].
      destruct (is_separator c) eqn:Es; [|by constructor].
      destruct HA as (x & out & Heq & [-> | ->] & Hout); rewrite Heq;
        constructor; try done.
      by right.
    + destruct (isdecimal c).
      * exists " "%char, (c :: sub_digit_groups InSecond l).
        split_and!; [done|by right|by constructor].
      * exists sep, (c :: sub_digit_groups Outside l).
        split_and!; [done|by left|by constructor].
    + destruct (isdecimal c); by constructor.
Qed.

Lemma sub_whitespace_length b l : length (sub_whitespace b l) <= length l.
Proof.
  revert b. induction l as [|c l IH]; intros b; simpl; [done|].
  pose proof (IH true). pose proof (IH false).
  destruct (isspace c); [destruct b|]; simpl; lia.
Qed.

Lemma sub_whitespace_only_spaces b l :
  Forall (fun c => isspace c = true -> c = " "%char) (sub_whitespace b l).
Proof.
  revert b. induction l as [|c l IH]; intros b; simpl; [constructor|].
  destruct (isspace c) eqn:Ec; [destruct b|]; try apply IH.
  - constructor; [done|apply IH].
  - constructor; [congruence|apply IH].
Qed.

Lemma sub_whitespace_again b b' l :
  b = true \/ b' = false ->
  sub_whitespace b' (sub_whitespace b l) = sub_whitespace b l.
Proof.
  revert b b'. induction l as [|c l IH]; intros b b' Hb; simpl; [done|].
  destruct (isspace c) eqn:Ec.
  - destruct b.
    + apply IH. by left.
    + destruct Hb as [Hb | ->]; [done|]. simpl. f_equal. apply IH. by left.
  - simpl. rewrite Ec. f_equal. apply IH. by right.
Qed.

Lemma split_sentences_nonempty before cur l :
  split_sentences before cur l <> [].
Proof.
  revert before cur. induction l as [|c l IH]; intros before cur; simpl;
    [done|].
  destruct (is_boundary before c); [done|apply IH].
Qed.

Lemma concat_cons sep x rest :
  rest <> [] ->
  String.concat sep (x :: rest) = (x ++ sep ++ String.concat sep rest)%string.
Proof. by destruct rest. Qed.

(** Joining the pieces of the sentence splitter with the characters it
    dropped gives the text back, when these are spaces. *)
Lemma split_sentences_join before cur l :
  Forall (fun c => isspace c = true -> c = " "%char) l ->
  String.concat " " (split_sentences before cur l) = str (rev cur ++ l).
Proof.
  intros Hl. revert before cur.
  induction Hl as [|c l Hc Hl IH]; intros before cur; simpl.
  - by rewrite app_nil_r.
  - destruct (is_boundary before c) eqn:Eb.
    + rewrite concat_cons by apply split_sentences_nonempty.
      unfold is_boundary in Eb. apply andb_true_iff in Eb as [_ Ec].
      rewrite IH, (Hc Ec). simpl. by rewrite str_app.
    + rewrite IH. simpl. by rewrite <- app_assoc.
Qed.

(** No piece is longer than the text. *)
Lemma split_sentences_length before cur l :
  Forall (fun s => String.length s <= length cur + length l)
    (split_sentences before cur l).
Proof.
  revert before cur. induction l as [|c l IH]; intros before cur; simpl.
  - repeat constructor. rewrite length_str, length_rev. lia.
  - destruct (is_boundary before c).
    + constructor; [rewrite length_str, length_rev; lia|].
      eapply Forall_impl; [apply IH|]. simpl. intros; lia.
    + eapply Forall_impl; [apply IH|]. simpl. intros; lia.
Qed.

End TextFacts.

(** ** More on the follow-up question generator *)

Module FollowUpProps.
Import Text FollowUp TextFacts FollowUpSpec.

Lemma strip_has_word s : strip s <> "" -> split (strip s) <> [].
Proof.
  intros Hne Hnil. apply Hne.
  apply split_chars_nil in Hnil as [_ Hblank].
  unfold strip, rstrip_chars in *. rewrite chars_str in Hblank.
  pose proof (lstrip_chars_head (rev (lstrip_chars (chars s)))) as Hhead.
  destruct (lstrip_chars (rev (lstrip_chars (chars s)))) as [|c l]; [done|].
  rewrite forallb_forall in Hblank. rewrite Hblank in Hhead; [done|].
  apply in_rev. rewrite rev_involutive. by left.
Qed.

Lemma flat_map_nil {A B} (f : A -> list B) l :
  Forall (fun x => f x = []) l -> flat_map f l = [].
Proof. induction 1 as [|x l Hx _ IH]; simpl; [done|]. by rewrite Hx, IH. Qed.

Lemma sentences_of_length relevant_text :
  Forall (fun s => String.length s <= String.length relevant_text)
    (sentences_of relevant_text).
Proof.
  unfold sentences_of.
  eapply Forall_impl; [apply split_sentences_length|].
  intros s Hs. simpl in Hs. etransitivity; [exact Hs|].
  etransitivity; [apply sub_whitespace_length|].
  pose proof (sub_digit_groups_replaced Outside (chars relevant_text)) as H.
  simpl in H. apply Forall2_length in H. by rewrite <- H, length_chars.
Qed.

(** X1. The digit-group substitution keeps the length of the text and every
    character of it, except that it may turn a comma or a semicolon into a
    space. *)
Theorem digit_groups_change_separators_only l :
  Forall2 replaced l (sub_digit_groups Outside l) /\
  length (sub_digit_groups Outside l) = length l.
Proof.
  pose proof (sub_digit_groups_replaced Outside l) as H. simpl in H.
  split; [done|]. symmetry. by apply Forall2_length in H.
Qed.

(** X2. After the whitespace substitution the only whitespace left is the
    space character, the text is no longer than before, and substituting
    again changes nothing: no run of whitespace is left. *)
Theorem whitespace_is_normalised l :
  let out := sub_whitespace false l in
  Forall (fun c => isspace c = true -> c = " "%char) out /\
  length out <= length l /\
  sub_whitespace false out = out.
Proof.
  split_and!.
  - apply sub_whitespace_only_spaces.
  - apply sub_whitespace_length.
  - apply sub_whitespace_again. by right.
Qed.

(** X3. Sentence splitting loses nothing of the normalised text: the
    sentences joined by single spaces are the text after the two
    substitutions. *)
Theorem sentences_join_to_normalised_text relevant_text :
  join " " (sentences_of relevant_text) =
  str (sub_whitespace false (sub_digit_groups Outside (chars relevant_text))).
Proof.
  unfold join, sentences_of.
  rewrite split_sentences_join by apply sub_whitespace_only_spaces. done.
Qed.

(** X4. Every generated question is "What about ", then between one and
    five words separated by single spaces, then "?". *)
Theorem questions_have_the_form relevant_text previous_questions :
  Forall
    (fun question =>
       exists words,
         1 <= length words <= 5 /\ Forall is_word words /\
         question = ("What about " ++ join " " words ++ "?")%string)
    (generate_follow_up_questions relevant_text previous_questions).
Proof.
  rewrite generate_firstn. apply Forall_take, Forall_forall.
  intros q Hq. apply list_elem_of_In, in_flat_map in Hq as (s & _ & Hq).
  unfold accepted in Hq.
  destruct (Nat.ltb_spec 20 (String.length (strip s))) as [Hlong|_];
    simpl in Hq; [|done].
  destruct (not_in _ _); simpl in Hq; [|done].
  destruct Hq as [<-|[]].
  exists (firstn 5 (split (strip s))). split_and!.
  - assert (split (strip s) <> []) as Hne.
    { apply strip_has_word. intros E. rewrite E in Hlong. simpl in Hlong. lia. }
    rewrite length_take. destruct (split (strip s)); [done|]. simpl. lia.
  - rewrite length_take. lia.
  - apply Forall_take, split_words.
  - done.
Qed.

(** X5. A relevant text of 20 characters or fewer, the empty text among
    them, yields no question. *)
Theorem short_text_yields_nothing relevant_text previous_questions :
  String.length relevant_text <= 20 ->
  generate_follow_up_questions relevant_text previous_questions = [].
Proof.
  intros Hshort. rewrite generate_firstn, flat_map_nil; [done|].
  eapply Forall_impl; [apply sentences_of_length|].
  intros s Hs. simpl in Hs. unfold accepted.
  pose proof (strip_length s) as Hstrip.
  destruct (Nat.ltb_spec 20 (String.length (strip s))); [lia|done].
Qed.

Lemma short_text_yields_nothing_witness :
  generate_follow_up_questions "Cats like warm milk." [] = [].
Proof.
  apply (short_text_yields_nothing "Cats like warm milk." []).
  vm_compute. lia.
Defined.

(** X6. Once three questions are accepted the loop is over: whatever
    sentences follow, the result is the same. *)
Theorem loop_stops_at_three previous_questions sentences more :
  length (follow_up_loop previous_questions sentences []) = 3 ->
  follow_up_loop previous_questions (sentences ++ more) [] =
  follow_up_loop previous_questions sentences [].
Proof.
  rewrite !follow_up_loop_firstn by (simpl; lia). simpl.
  rewrite flat_map_app, length_take. intros Hfull.
  rewrite firstn_app.
  replace (3 - _) with 0 by lia. simpl. by rewrite app_nil_r.
Qed.

Lemma loop_stops_at_three_witness :
  follow_up_loop []
    (["The first sentence is long enough."; "The second sentence is long, too.";
      "A third sentence that is long enough."]
     ++ ["One more sentence that nobody reads."]) [] =
  follow_up_loop []
    ["The first sentence is long enough."; "The second sentence is long, too.";
     "A third sentence that is long enough."] [].
Proof.
  apply (loop_stops_at_three []
           ["The first sentence is long enough.";
            "The second sentence is long, too.";
            "A third sentence that is long enough."]
           ["One more sentence that nobody reads."]).
  vm_compute. reflexivity.
Defined.

(** X7. The generator returns at most three questions, and none that is
    among the previous questions it was given. *)
Theorem questions_are_few_and_new relevant_text previous_questions :
  length (generate_follow_up_questions relevant_text previous_questions) <= 3 /\
  Forall (fun question => question ∉ previous_questions)
    (generate_follow_up_questions relevant_text previous_questions).
Proof.
  split; [apply generate_at_most_three|apply generate_avoids_previous].
Qed.

End FollowUpProps.

(** ** More on the corpus index *)

Module CorpusProps.
Import Corpus Instances CorpusSpec.

Lemma dict_get_set_eq k v d : dict_get k (dict_set k v d) = Some v.
Proof.
  induction d as [|[k0 v0] d IH]; simpl.
  - by rewrite String.eqb_refl.
  - destruct (String.eqb_spec k k0) as [->|Hne]; simpl.
    + by rewrite String.eqb_refl.
    + by destruct (String.eqb_spec k k0).
Qed.

Lemma dict_get_set_ne k k' v d :
  k' <> k -> dict_get k' (dict_set k v d) = dict_get k' d.
Proof.
  intros Hne. induction d as [|[k0 v0] d IH]; simpl.
  - by destruct (String.eqb_spec k' k).
  - destruct (String.eqb_spec k k0) as [->|Hk]; simpl.
    + by destruct (String.eqb_spec k' k0).
    + destruct (String.eqb_spec k' k0); [done|apply IH].
Qed.

Lemma dict_set_keys_old k v d : k ∈ keys d -> keys (dict_set k v d) = keys d.
Proof.
  induction d as [|[k0 v0] d IH]; simpl; [by intros ?%elem_of_nil|].
  destruct (String.eqb_spec k k0) as [->|Hk]; simpl; [done|].
  intros [?|Hin]%elem_of_cons; [done|]. by rewrite IH.
Qed.

Lemma dict_set_keys_new k v d :
  k ∉ keys d -> keys (dict_set k v d) = keys d ++ [k].
Proof.
  induction d as [|[k0 v0] d IH]; simpl; [done|].
  intros Hnotin. apply not_elem_of_cons in Hnotin as [Hne Hnotin].
  destruct (String.eqb_spec k k0); [done|]. simpl. by rewrite IH.
Qed.

Lemma dict_set_keys_prefix k v d :
  exists new, keys (dict_set k v d) = keys d ++ new.
Proof.
  destruct (decide (k ∈ keys d)) as [Hin|Hnotin].
  - exists []. by rewrite app_nil_r, dict_set_keys_old.
  - exists [k]. by apply dict_set_keys_new.
Qed.

(** Assigning the value a key already has changes nothing. *)
Lemma dict_set_same k v d : dict_get k d = Some v -> dict_set k v d = d.
Proof.
  induction d as [|[k0 v0] d IH]; simpl; [done|].
  destruct (String.eqb_spec k k0) as [->|Hk].
  - by intros [= ->].
  - intros H. by rewrite IH.
Qed.

Lemma load_file_details fs root name st :
  file_details (load_file fs root name st) =
  file_details st ++ detail_of root name.
Proof.
  unfold load_file, detail_of.
  destruct (mime_type_of name); [|by rewrite app_nil_r].
  by repeat case_match.
Qed.

Lemma load_file_texts fs root name st :
  pdf_texts (load_file fs root name st) =
  match extracted fs root name with
  | Some file_text =>
      dict_set (os_path_join root name) file_text (pdf_texts st)
  | None => pdf_texts st
  end.
Proof.
  unfold load_file, extracted.
  destruct (mime_type_of name); [|done].
  by repeat case_match.
Qed.

Lemma load_file_sessions fs root name st :
  user_query_history (load_file fs root name st) = user_query_history st /\
  chat_session (load_file fs root name st) = chat_session st.
Proof.
  unfold load_file. destruct (mime_type_of name); [|done].
  by repeat case_match.
Qed.

Lemma load_all_files_run fs st :
  load_all_files fs st =
  (file_details (run fs (scan_list fs) (set_file_details [] st)),
   run fs (scan_list fs) (set_file_details [] st)).
Proof.
  unfold load_all_files, run, scan_list.
  generalize (set_file_details [] st) as st0.
  generalize (os_walk fs FILES_DIRECTORY) as entries.
  assert (forall entries st0,
    fold_left (fun st entry => load_directory fs entry st) entries st0 =
    fold_left (fun st file => load_file fs (fst file) (snd file) st)
      (flat_map (fun entry => map (pair (fst entry)) (snd entry)) entries)
      st0) as H.
  { induction entries as [|[root names] entries IH]; intros st0; simpl;
      [done|].
    rewrite fold_left_app, IH. f_equal. unfold load_directory. simpl.
    clear IH. revert st0.
    induction names as [|name names IH]; intros st0; simpl; [done|].
    apply IH. }
  intros entries st0. by rewrite H.
Qed.

Lemma run_details fs files st :
  file_details (run fs files st) =
  file_details st ++ flat_map (fun file => detail_of (fst file) (snd file)) files.
Proof.
  revert st. induction files as [|file files IH]; intros st; simpl.
  - by rewrite app_nil_r.
  - unfold run in *. simpl. rewrite IH, load_file_details.
    by rewrite <- app_assoc.
Qed.

Lemma run_frame fs files st p :
  p ∉ map (fun file => os_path_join (fst file) (snd file)) files ->
  dict_get p (pdf_texts (run fs files st)) = dict_get p (pdf_texts st).
Proof.
  revert st. induction files as [|file files IH]; intros st; simpl; [done|].
  intros Hp. apply not_elem_of_cons in Hp as [Hne Hp].
  unfold run in *. simpl. rewrite IH by done. rewrite load_file_texts.
  destruct (extracted _ _ _); [|done]. by apply dict_get_set_ne.
Qed.

Lemma run_value fs files st file :
  NoDup (map (fun file => os_path_join (fst file) (snd file)) files) ->
  file ∈ files ->
  dict_get (os_path_join (fst file) (snd file)) (pdf_texts (run fs files st)) =
  match extracted fs (fst file) (snd file) with
  | Some file_text => Some file_text
  | None => dict_get (os_path_join (fst file) (snd file)) (pdf_texts st)
  end.
Proof.
  revert st. induction files as [|g files IH]; intros st; simpl;
    [by intros _ ?%elem_of_nil|].
  intros [Hg Hnd]%NoDup_cons [->|Hin]%elem_of_cons.
  - change (run fs (g :: files) st)
      with (run fs files (load_file fs (fst g) (snd g) st)).
    rewrite run_frame by done. rewrite load_file_texts.
    destruct (extracted _ _ _); [apply dict_get_set_eq|done].
  - change (run fs (g :: files) st)
      with (run fs files (load_file fs (fst g) (snd g) st)).
    rewrite IH by done.
    destruct (extracted fs (fst file) (snd file)); [done|].
    rewrite load_file_texts.
    destruct (extracted fs (fst g) (snd g)); [|done].
    apply dict_get_set_ne. intros Heq. apply Hg. rewrite <- Heq.
    apply list_elem_of_In, in_map_iff. exists file.
    split; [done|by apply list_elem_of_In].
Qed.

Lemma run_sound fs files st p text :
  dict_get p (pdf_texts (run fs files st)) = Some text ->
  dict_get p (pdf_texts st) = Some text \/
  exists file,
    file ∈ files /\ os_path_join (fst file) (snd file) = p /\
    extracted fs (fst file) (snd file) = Some text.
Proof.
  revert st. induction files as [|g files IH]; intros st; simpl; [by left|].
  change (run fs (g :: files) st)
    with (run fs files (load_file fs (fst g) (snd g) st)).
  intros [H|(file & Hin & Hp & Hx)]%IH.
  - rewrite load_file_texts in H.
    destruct (extracted fs (fst g) (snd g)) as [t|] eqn:Ex; [|by left].
    destruct (decide (p = os_path_join (fst g) (snd g))) as [->|Hne].
    + rewrite dict_get_set_eq in H. injection H as ->.
      right. exists g. split_and!; [by left|done|done].
    + rewrite dict_get_set_ne in H by done. by left.
  - right. exists file. split_and!; [by right|done|done].
Qed.

Lemma run_sessions fs files st :
  user_query_history (run fs files st) = user_query_history st /\
  chat_session (run fs files st) = chat_session st.
Proof.
  revert st. induction files as [|g files IH]; intros st; simpl; [done|].
  change (run fs (g :: files) st)
    with (run fs files (load_file fs (fst g) (snd g) st)).
  destruct (IH (load_file fs (fst g) (snd g) st)) as [-> ->].
  apply load_file_sessions.
Qed.

(** A scan over a corpus that already holds what it extracts leaves the
    corpus as it is. *)
Lemma run_same fs files st :
  (forall file text,
     file ∈ files -> extracted fs (fst file) (snd file) = Some text ->
     dict_get (os_path_join (fst file) (snd file)) (pdf_texts st) = Some text) ->
  pdf_texts (run fs files st) = pdf_texts st.
Proof.
  revert st. induction files as [|g files IH]; intros st Hst; simpl; [done|].
  change (run fs (g :: files) st)
    with (run fs files (load_file fs (fst g) (snd g) st)).
  assert (pdf_texts (load_file fs (fst g) (snd g) st) = pdf_texts st) as Hg.
  { rewrite load_file_texts.
    destruct (extracted fs (fst g) (snd g)) as [t|] eqn:Ex; [|done].
    apply dict_set_same, Hst; [by left|done]. }
  rewrite IH; [done|].
  intros file text Hin Hx. rewrite Hg. apply Hst; [by right|done].
Qed.

Lemma state_eq st1 st2 :
  pdf_texts st1 = pdf_texts st2 ->
  file_details st1 = file_details st2 ->
  user_query_history st1 = user_query_history st2 ->
  chat_session st1 = chat_session st2 ->
  st1 = st2.
Proof. destruct st1, st2. simpl. by intros -> -> -> ->. Qed.

Lemma load_all_files_texts fs st :
  pdf_texts (snd (load_all_files fs st)) =
  pdf_texts (run fs (scan_list fs) (set_file_details [] st)).
Proof. by rewrite load_all_files_run. Qed.

Lemma load_lists_supported_files_aux fs st :
  fst (load_all_files fs st) =
  flat_map (fun file => detail_of (fst file) (snd file)) (scan_list fs).
Proof. rewrite load_all_files_run. simpl. by rewrite run_details. Qed.

Lemma load_stores_extracted_text_aux fs st file :
  NoDup (scan_paths fs) ->
  file ∈ scan_list fs ->
  dict_get (os_path_join (fst file) (snd file))
    (pdf_texts (snd (load_all_files fs st))) =
  match extracted fs (fst file) (snd file) with
  | Some file_text => Some file_text
  | None => dict_get (os_path_join (fst file) (snd file)) (pdf_texts st)
  end.
Proof.
  intros Hnd Hin. rewrite load_all_files_texts.
  by rewrite run_value.
Qed.

(** X8. Assignment to a dictionary and lookup: the key assigned holds the
    new value, every other key holds what it held, a key that was present
    keeps its position, and a new key goes last. *)
Theorem dict_assignment k v d :
  dict_get k (dict_set k v d) = Some v /\
  (forall k', k' <> k -> dict_get k' (dict_set k v d) = dict_get k' d) /\
  (k ∈ keys d -> keys (dict_set k v d) = keys d) /\
  (k ∉ keys d -> keys (dict_set k v d) = keys d ++ [k]).
Proof.
  split_and!.
  - apply dict_get_set_eq.
  - intros k' Hne. by apply dict_get_set_ne.
  - apply dict_set_keys_old.
  - apply dict_set_keys_new.
Qed.

(** X9. The list [load_all_files] returns holds one entry for every file
    of the scan whose name ends in [.pdf] or [.txt], in the order of the
    scan, whatever was listed before and whether or not the file could be
    read; files of other types are not listed. *)
Theorem load_lists_supported_files fs st :
  fst (load_all_files fs st) =
  flat_map (fun file => detail_of (fst file) (snd file)) (scan_list fs).
Proof. apply load_lists_supported_files_aux. Qed.

(** X10. When no path occurs twice in a scan, a supported file that could
    be read is in the corpus after the load with the text read, and a file
    that is not supported or could not be read leaves under its path what
    the corpus held before. *)
Theorem load_stores_extracted_text fs st file :
  NoDup (scan_paths fs) ->
  file ∈ scan_list fs ->
  dict_get (os_path_join (fst file) (snd file))
    (pdf_texts (snd (load_all_files fs st))) =
  match extracted fs (fst file) (snd file) with
  | Some file_text => Some file_text
  | None => dict_get (os_path_join (fst file) (snd file)) (pdf_texts st)
  end.
Proof. apply load_stores_extracted_text_aux. Qed.

Lemma disk_mixed_paths : NoDup (scan_paths disk_mixed).
Proof. apply (bool_decide_unpack _). vm_compute. reflexivity. Defined.

Lemma disk_mixed_a : ("files", "a.txt") ∈ scan_list disk_mixed.
Proof. apply (bool_decide_unpack _). vm_compute. reflexivity. Defined.

Lemma disk_mixed_b : ("files", "b.pdf") ∈ scan_list disk_mixed.
Proof. apply (bool_decide_unpack _). vm_compute. reflexivity. Defined.

Lemma load_stores_extracted_text_witness :
  dict_get "files/a.txt"
    (pdf_texts (snd (load_all_files disk_mixed loaded_before))) =
  Some "text of files/a.txt" /\
  dict_get "files/b.pdf"
    (pdf_texts (snd (load_all_files disk_mixed loaded_before))) =
  Some "old text of b".
Proof.
  split.
  - apply (load_stores_extracted_text disk_mixed loaded_before
             ("files", "a.txt") disk_mixed_paths disk_mixed_a).
  - apply (load_stores_extracted_text disk_mixed loaded_before
             ("files", "b.pdf") disk_mixed_paths disk_mixed_b).
Defined.

(** X11. A path that the scan does not visit holds after the load what it
    held before: a load never forgets a document. *)
Theorem load_leaves_other_paths fs st p :
  p ∉ scan_paths fs ->
  dict_get p (pdf_texts (snd (load_all_files fs st))) =
  dict_get p (pdf_texts st).
Proof.
  intros Hp. rewrite load_all_files_texts. by rewrite run_frame.
Qed.

Lemma load_leaves_other_paths_witness :
  dict_get "files/gone.txt"
    (pdf_texts (snd (load_all_files disk_mixed loaded_before))) =
  Some "text of gone".
Proof.
  apply (load_leaves_other_paths disk_mixed loaded_before "files/gone.txt").
  apply (bool_decide_unpack _). vm_compute. reflexivity.
Defined.

(** X12. Every text in the corpus after a load was there before under the
    same path, or was read from a supported file of the scan with that
    path. *)
Theorem load_entries_are_old_or_extracted fs st p text :
  dict_get p (pdf_texts (snd (load_all_files fs st))) = Some text ->
  dict_get p (pdf_texts st) = Some text \/
  exists file,
    file ∈ scan_list fs /\ os_path_join (fst file) (snd file) = p /\
    extracted fs (fst file) (snd file) = Some text.
Proof.
  rewrite load_all_files_texts. intros H. by apply run_sound in H.
Qed.

Lemma load_entries_are_old_or_extracted_witness :
  dict_get "files/sub/c.txt" (pdf_texts loaded_before) =
    Some "text of files/sub/c.txt" \/
  exists file,
    file ∈ scan_list disk_mixed /\
    os_path_join (fst file) (snd file) = "files/sub/c.txt" /\
    extracted disk_mixed (fst file) (snd file) =
      Some "text of files/sub/c.txt".
Proof.
  apply (load_entries_are_old_or_extracted disk_mixed loaded_before).
  vm_compute. reflexivity.
Defined.

(** X13. A load keeps the documents of the corpus at their positions, new
    ones going after them, and touches neither the sessions nor the
    conversation. *)
Theorem load_keeps_positions fs st :
  let st' := snd (load_all_files fs st) in
  (exists new, keys (pdf_texts st') = keys (pdf_texts st) ++ new) /\
  user_query_history st' = user_query_history st /\
  chat_session st' = chat_session st.
Proof.
  cbv zeta. split.
  - apply (load_all_files_invariant
             (fun st' => exists new,
                keys (pdf_texts st') = keys (pdf_texts st) ++ new)).
    + done.
    + intros root name st0 [new Hnew]. rewrite load_file_texts.
      destruct (extracted _ _ _) as [t|]; [|by exists new].
      destruct (dict_set_keys_prefix (os_path_join root name) t (pdf_texts st0))
        as [more ->].
      exists (new ++ more). by rewrite Hnew, <- app_assoc.
    + exists []. by rewrite app_nil_r.
  - rewrite load_all_files_run. simpl.
    exact (run_sessions fs (scan_list fs) (set_file_details [] st)).
Qed.

(** X14. A load keeps the paths of the corpus distinct. *)
Theorem load_keeps_keys_distinct fs st :
  NoDup (keys (pdf_texts st)) ->
  NoDup (keys (pdf_texts (snd (load_all_files fs st)))).
Proof. apply load_all_files_NoDup. Qed.

Lemma load_keeps_keys_distinct_witness :
  NoDup (keys (pdf_texts (snd (load_all_files disk_mixed loaded_before)))).
Proof.
  apply (load_keeps_keys_distinct disk_mixed loaded_before).
  apply (bool_decide_unpack _). vm_compute. reflexivity.
Defined.

(** X15. Loading again from a directory that has not changed, and in which
    no path occurs twice, returns the same list and leaves the state as the
    first load left it. *)
Theorem reload_is_idempotent fs st :
  NoDup (scan_paths fs) ->
  load_all_files fs (snd (load_all_files fs st)) = load_all_files fs st.
Proof.
  intros Hnd.
  assert (pdf_texts (snd (load_all_files fs (snd (load_all_files fs st)))) =
          pdf_texts (snd (load_all_files fs st))) as Htexts.
  { rewrite (load_all_files_texts fs (snd _)). rewrite run_same; [done|].
    intros file text Hin Hx.
    change (pdf_texts (set_file_details [] (snd (load_all_files fs st))))
      with (pdf_texts (snd (load_all_files fs st))).
    rewrite load_stores_extracted_text_aux by done. by rewrite Hx. }
  rewrite (surjective_pairing (load_all_files fs (snd _))).
  rewrite (surjective_pairing (load_all_files fs st)) at 3.
  f_equal.
  - by rewrite !load_lists_supported_files_aux.
  - apply state_eq; [done| | |].
    + rewrite !load_all_files_run. simpl. by rewrite !run_details.
    + rewrite (load_all_files_run fs (snd _)). simpl.
      by rewrite (proj1 (run_sessions _ _ _)).
    + rewrite (load_all_files_run fs (snd _)). simpl.
      by rewrite (proj2 (run_sessions _ _ _)).
Qed.

Lemma reload_is_idempotent_witness :
  load_all_files disk_mixed (snd (load_all_files disk_mixed loaded_before)) =
  load_all_files disk_mixed loaded_before.
Proof.
  apply (reload_is_idempotent disk_mixed loaded_before disk_mixed_paths).
Defined.

End CorpusProps.

(** ** More on the relevance ranker *)

Module RankerProps.
Import Ranker SortFacts RankFacts Instances InstanceFacts TextFacts.

Lemma insert_descending_sorted key x l :
  StronglySorted (fun i j => (key j <= key i)%Q) l ->
  StronglySorted (fun i j => (key j <= key i)%Q) (insert_descending key x l).
Proof.
  induction 1 as [|y l Hl IH Hy]; simpl; [repeat constructor|].
  destruct (Qle_bool (key y) (key x)) eqn:E.
  - apply Qle_bool_iff in E. constructor; [by constructor|].
    constructor; [done|].
    eapply Forall_impl; [exact Hy|]. intros z Hz. simpl in Hz.
    by apply Qle_trans with (key y).
  - constructor; [done|].
    rewrite (insert_descending_permutation key x l).
    constructor; [|done].
    destruct (Qlt_le_dec (key x) (key y)) as [Hlt|Hle].
    + by apply Qlt_le_weak.
    + apply Qle_bool_iff in Hle. congruence.
Qed.

Lemma sorted_descending_sorted key l :
  StronglySorted (fun i j => (key j <= key i)%Q) (sorted_descending key l).
Proof.
  induction l as [|x l IH]; simpl; [constructor|].
  by apply insert_descending_sorted.
Qed.

(** X16. [nlargest n l key] returns [min n (length l)] elements of [l] in
    descending order of their keys, and no element left out has a larger
    key than one returned. *)
Theorem nlargest_takes_the_largest n l key :
  let top := nlargest n l key in
  length top = min n (length l) /\
  StronglySorted (fun i j => (key j <= key i)%Q) top /\
  exists rest,
    Permutation (top ++ rest) l /\
    forall i j, i ∈ top -> j ∈ rest -> (key j <= key i)%Q.
Proof.
  cbv zeta. unfold nlargest. split_and!.
  - rewrite length_take.
    by rewrite (Permutation_length (sorted_descending_permutation key l)).
  - apply StronglySorted_firstn, sorted_descending_sorted.
  - exists (skipn n (sorted_descending key l)). split.
    + rewrite firstn_skipn. apply sorted_descending_permutation.
    + intros i j Hi Hj.
      pose proof (sorted_descending_sorted key l) as Hs.
      rewrite <- (firstn_skipn n) in Hs.
      apply StronglySorted_app in Hs as (Hs & _ & _). by apply Hs.
Qed.

Section RankerMore.
Context {sk : Sklearn} {np : Numpy}.
Hypothesis sk_shape : fit_transform_shape sk.
Hypothesis np_permutation : argsort_permutation np.
Hypothesis np_ascending : argsort_ascending np.

Lemma rank_inr_nonempty st query ranked_docs :
  rank_documents st query = inr ranked_docs -> pdf_texts st <> [].
Proof. unfold rank_documents. by destruct (pdf_texts st). Qed.

(** The whole ranking a call computes, of which it returns the head. *)
Lemma ranking_sorted st query :
  StronglySorted (fun i j => (score st query j <= score st query i)%Q)
    (rev (argsort (cosine_sim_of st query))).
Proof. apply (StronglySorted_rev _ _ (np_ascending _)). Qed.

Lemma ranking_complete st query ranked_docs j :
  rank_documents st query = inr ranked_docs ->
  j < length (pdf_texts st) ->
  j ∈ rev (argsort (cosine_sim_of st query)).
Proof.
  intros [_ Hlen]%(rank_documents_inr sk_shape np_ascending) Hj.
  apply list_elem_of_In, in_rev. rewrite rev_involutive.
  apply list_elem_of_In.
  rewrite (np_permutation (cosine_sim_of st query)), Hlen.
  apply elem_of_seq. lia.
Qed.

(** X17. The documents returned are the best: a document of the corpus
    that is not returned has a similarity no larger than that of any
    document returned. *)
Theorem rank_returns_the_best st query ranked_docs i j :
  rank_documents st query = inr ranked_docs ->
  i ∈ ranked_docs ->
  j < length (pdf_texts st) ->
  j ∉ ranked_docs ->
  (score st query j <= score st query i)%Q.
Proof.
  intros Hrank Hi Hj Hnot.
  pose proof (ranking_complete _ _ _ _ Hrank Hj) as Hin.
  destruct (rank_documents_inr sk_shape np_ascending _ _ _ Hrank) as [-> _].
  pose proof (ranking_sorted st query) as Hs.
  rewrite <- (firstn_skipn 3) in Hs, Hin.
  apply StronglySorted_app in Hs as (Hs & _ & _).
  apply elem_of_app in Hin as [Hin|Hin]; [done|]. by apply Hs.
Qed.

(** X18. A ranking that succeeds is not empty, and its first document has
    the largest similarity of the corpus. *)
Theorem rank_puts_the_best_first st query ranked_docs :
  rank_documents st query = inr ranked_docs ->
  exists best rest,
    ranked_docs = best :: rest /\
    forall j, j < length (pdf_texts st) ->
              (score st query j <= score st query best)%Q.
Proof.
  intros Hrank.
  pose proof (rank_inr_nonempty _ _ _ Hrank) as Hne.
  pose proof (ranking_sorted st query) as Hs.
  pose proof (fun j => ranking_complete st query ranked_docs j Hrank) as Hall.
  destruct (rank_documents_inr sk_shape np_ascending _ _ _ Hrank)
    as [-> Hlen].
  destruct (rev (argsort (cosine_sim_of st query))) as [|best ranking] eqn:E.
  - apply (f_equal (@length _)) in E. rewrite length_rev in E.
    rewrite (Permutation_length (np_permutation _)), length_seq, Hlen in E.
    destruct (pdf_texts st); done.
  - exists best, (firstn 2 ranking). split; [done|].
    intros j Hj. specialize (Hall j Hj).
    apply StronglySorted_inv in Hs as [_ Hbest].
    apply elem_of_cons in Hall as [->|Hin]; [apply Qle_refl|].
    rewrite Forall_forall in Hbest. by apply Hbest.
Qed.

(** X19. What [rank_documents] does, guard by guard: over the empty corpus
    it fails with [EmptyCorpus]; else on a query without a character that
    is not whitespace it fails with [EmptyQuery]; else, when the vectorizer
    finds no vocabulary, it fails with that error; else it returns the
    first three positions of the argsort of the similarities read
    backwards. *)
Theorem rank_documents_cases st query :
  rank_documents st query =
  match pdf_texts st with
  | [] => inl EmptyCorpus
  | _ :: _ =>
      if forallb Text.isspace (Text.chars query) then inl EmptyQuery
      else
        match fit_transform (values (pdf_texts st) ++ [query]) with
        | None => inl empty_vocabulary
        | Some _ =>
            inr (firstn 3 (rev (argsort (cosine_sim_of st query))))
        end
  end.
Proof.
  destruct (rank_documents st query) as [e|ranked_docs] eqn:Hrank.
  - revert Hrank. unfold rank_documents.
    destruct (pdf_texts st) as [|kv d] eqn:Hd; [by intros [= <-]|].
    destruct (String.eqb_spec (Text.strip query) "") as [Hblank|Hq].
    + intros [= <-]. by rewrite (strip_empty _ Hblank).
    + destruct (forallb _ _) eqn:Eb; [by apply strip_blank in Eb|].
      destruct (fit_transform _) as [M|] eqn:HM; [|by intros [= <-]].
      apply sk_shape in HM. rewrite length_app in HM. simpl in HM.
      destruct (Nat.ltb_spec (length M) 2) as [Hlt|_]; [lia|].
      unfold similarities. destruct (rev M) eqn:Hrev; [|done].
      apply (f_equal (@length _)) in Hrev. rewrite length_rev in Hrev.
      simpl in Hrev. lia.
  - destruct (rank_documents_inr sk_shape np_ascending _ _ _ Hrank)
      as [-> _].
    revert Hrank. unfold rank_documents.
    destruct (pdf_texts st) as [|kv d] eqn:Hd; [done|].
    destruct (String.eqb_spec (Text.strip query) "") as [Hblank|Hq]; [done|].
    destruct (forallb _ _) eqn:Eb; [by apply strip_blank in Eb|].
    by destruct (fit_transform _).
Qed.

End RankerMore.

Lemma rank_returns_the_best_witness :
  (@score words_sklearn five_documents "gamma" 3
   <= @score words_sklearn five_documents "gamma" 1)%Q.
Proof.
  apply (@rank_returns_the_best words_sklearn stable_numpy
           words_sklearn_shape stable_numpy_permutation stable_numpy_ascending
           five_documents "gamma" [4; 2; 1] 1 3).
  - vm_compute. reflexivity.
  - apply (bool_decide_unpack _). vm_compute. reflexivity.
  - vm_compute. lia.
  - apply (bool_decide_unpack _). vm_compute. reflexivity.
Defined.

Lemma rank_puts_the_best_first_witness :
  exists best rest,
    [4; 2; 1] = best :: rest /\
    forall j, j < length (pdf_texts five_documents) ->
              (@score words_sklearn five_documents "gamma" j
               <= @score words_sklearn five_documents "gamma" best)%Q.
Proof.
  apply (@rank_puts_the_best_first words_sklearn stable_numpy
           words_sklearn_shape stable_numpy_permutation stable_numpy_ascending
           five_documents "gamma" [4; 2; 1]).
  vm_compute. reflexivity.
Defined.

Lemma rank_documents_cases_witness :
  rank five_documents "gamma" = inr [4; 2; 1].
Proof.
  unfold rank.
  rewrite (@rank_documents_cases words_sklearn stable_numpy
             words_sklearn_shape stable_numpy_ascending
             five_documents "gamma").
  vm_compute. reflexivity.
Defined.

End RankerProps.

(** ** More on the response orchestrator and the request boundary *)

Module OrchestratorProps.
Import Text Ranker RankFacts Orchestrator Routes Instances InstanceFacts.
Import TextFacts FollowUpSpec OrchestratorSpec.

Lemma gather_app texts ranked_docs relevant_text :
  Forall (fun idx => idx < length texts) ranked_docs ->
  gather texts ranked_docs relevant_text =
  inr (relevant_text ++
       String.concat ""
         (map (fun idx => nth idx texts "" ++ newline) ranked_docs))%string.
Proof.
  intros Hrange. revert relevant_text.
  induction Hrange as [|idx rest Hidx _ IH]; intros acc.
  - simpl. by rewrite append_nil_r.
  - cbn [gather map]. rewrite concat_empty_cons.
    destruct (nth_error texts idx) as [text|] eqn:E.
    + rewrite IH, (nth_error_nth _ _ _ E). f_equal.
      by rewrite !append_assoc.
    + apply nth_error_None in E. lia.
Qed.

Lemma gather_out_of_range texts before idx after relevant_text :
  Forall (fun idx => idx < length texts) before ->
  length texts <= idx ->
  gather texts (before ++ idx :: after) relevant_text =
  inl (IndexError "list index out of range").
Proof.
  intros Hbefore Hidx. revert relevant_text.
  induction Hbefore as [|i rest Hi _ IH]; intros acc; simpl.
  - by rewrite (proj2 (nth_error_None _ _) Hidx).
  - destruct (nth_error texts i) eqn:E; [apply IH|done].
Qed.

Section OrchestratorMore.
Context {sk : Sklearn} {np : Numpy} {gen : Generator}.
Hypothesis sk_shape : fit_transform_shape sk.
Hypothesis np_permutation : argsort_permutation np.
Hypothesis np_ascending : argsort_ascending np.

(** A turn, case by case. *)
Lemma respond_cases user_query session_id st :
  chatbot_respond user_query session_id st =
  match rank_documents st user_query with
  | inl e => ((error_answer e, []), st)
  | inr ranked_docs =>
      match gather (values (pdf_texts st)) ranked_docs "" with
      | inl e => ((error_answer e, []), st)
      | inr relevant_text =>
          let record :=
            turn_record user_query relevant_text
              (previous_questions_of session_id st) in
          let st1 :=
            set_user_query_history
              (<[session_id := record]> (user_query_history st)) st in
          let prompt := system_prompt user_query relevant_text in
          match send_message (chat_session st) prompt with
          | (inl e, history) =>
              ((error_answer e, []), set_chat_session history st1)
          | (inr response_text, history) =>
              ((strip response_text, Session.follow_up_questions record),
               set_chat_session history st1)
          end
      end
  end.
Proof.
  unfold chatbot_respond, respond_body, bind, read, write, lift, ret.
  destruct (rank_documents st user_query); [done|].
  destruct (gather _ _ _); [done|]. simpl.
  by destruct (send_message _ _) as [[e|response_text] history].
Qed.

Lemma rank_success_gathers st user_query ranked_docs :
  rank_documents st user_query = inr ranked_docs ->
  exists relevant_text,
    gather (values (pdf_texts st)) ranked_docs "" = inr relevant_text.
Proof.
  intros Hrank. apply gather_in_range.
  unfold values. rewrite length_map. eapply ranked_in_range; eauto.
Qed.

Lemma respond_at_most_three user_query session_id st :
  length (snd (fst (chatbot_respond user_query session_id st))) <= 3.
Proof.
  rewrite respond_cases.
  destruct (rank_documents st user_query); [simpl; lia|].
  destruct (gather _ _ _); [simpl; lia|]. cbv zeta.
  destruct (send_message _ _) as [[e|response_text] history]; simpl; [lia|].
  apply generate_at_most_three.
Qed.

(** X20. A turn on one session leaves the record of every other session
    as it was. *)
Theorem respond_leaves_other_sessions user_query session_id other st :
  other <> session_id ->
  user_query_history (snd (chatbot_respond user_query session_id st))
    !! other =
  user_query_history st !! other.
Proof.
  intros Hne. rewrite respond_cases.
  destruct (rank_documents st user_query); [done|].
  destruct (gather _ _ _); [done|]. cbv zeta.
  destruct (send_message _ _) as [[e|response_text] history]; simpl;
    by rewrite lookup_insert_ne.
Qed.

(** X21. No turn changes the corpus or the list of loaded files. *)
Theorem respond_keeps_documents user_query session_id st :
  pdf_texts (snd (chatbot_respond user_query session_id st)) = pdf_texts st /\
  file_details (snd (chatbot_respond user_query session_id st)) =
  file_details st.
Proof.
  rewrite respond_cases.
  destruct (rank_documents st user_query); [done|].
  destruct (gather _ _ _); [done|]. cbv zeta.
  by destruct (send_message _ _) as [[e|response_text] history].
Qed.

(** X22. When the ranking succeeds and the collaborator then raises, in
    [send_message] or in the read of its text, the answer is the text of
    that failure with no follow-up question, and the record of the turn
    stays written: nothing is rolled back. The conversation is what the
    library left. *)
Theorem failed_generation_is_not_rolled_back
    user_query session_id st ranked_docs :
  rank_documents st user_query = inr ranked_docs ->
  exists relevant_text,
    gather (values (pdf_texts st)) ranked_docs "" = inr relevant_text /\
    forall e history,
      send_message (chat_session st) (system_prompt user_query relevant_text)
        = (inl e, history) ->
      chatbot_respond user_query session_id st =
      ((("Error processing your query: " ++ str_exn e)%string, []),
       set_chat_session history
         (set_user_query_history
            (<[session_id :=
                 {| Session.query := user_query;
                    Session.follow_up_questions :=
                      FollowUp.generate_follow_up_questions relevant_text
                        (previous_questions_of session_id st);
                    Session.relevant_text := relevant_text |}]>
               (user_query_history st)) st)).
Proof.
  intros Hrank.
  destruct (rank_success_gathers _ _ _ Hrank) as [text Htext].
  exists text. split; [done|]. intros e history Hsend.
  rewrite respond_cases, Hrank, Htext. cbv zeta. by rewrite Hsend.
Qed.

(** X23. When the ranking succeeds and the collaborator answers the prompt
    of the turn, the answer of the turn is the collaborator's text
    stripped, and the follow-up questions returned are those written to
    the session record: the questions generated from the relevant text
    against the questions the record held before. *)
Theorem successful_turn user_query session_id st ranked_docs :
  rank_documents st user_query = inr ranked_docs ->
  exists relevant_text,
    gather (values (pdf_texts st)) ranked_docs "" = inr relevant_text /\
    forall response_text history,
      send_message (chat_session st) (system_prompt user_query relevant_text)
        = (inr response_text, history) ->
      let turn := chatbot_respond user_query session_id st in
      let questions :=
        FollowUp.generate_follow_up_questions relevant_text
          (previous_questions_of session_id st) in
      fst turn = (strip response_text, questions) /\
      user_query_history (snd turn) !! session_id =
      Some
        {| Session.query := user_query;
           Session.follow_up_questions := questions;
           Session.relevant_text := relevant_text |}.
Proof.
  intros Hrank.
  destruct (rank_success_gathers _ _ _ Hrank) as [text Htext].
  exists text. split; [done|]. intros response_text history Hsend.
  cbv zeta. rewrite respond_cases, Hrank, Htext. cbv zeta. rewrite Hsend.
  simpl. split; [done|]. by rewrite lookup_insert_eq.
Qed.

(** X24. The follow-up questions a turn returns are at most three, and
    none of them is among those the session's record holds from the turn
    before. *)
Theorem respond_asks_new_questions user_query session_id st :
  let questions := snd (fst (chatbot_respond user_query session_id st)) in
  length questions <= 3 /\
  Forall (fun question => question ∉ previous_questions_of session_id st)
    questions.
Proof.
  cbv zeta. rewrite respond_cases.
  destruct (rank_documents st user_query); [by split; [simpl; lia|]|].
  destruct (gather _ _ _); [by split; [simpl; lia|]|]. cbv zeta.
  destruct (send_message _ _) as [[e|response_text] history]; simpl;
    [by split; [lia|]|].
  split; [apply generate_at_most_three|apply generate_avoids_previous].
Qed.

(** X25. The relevant text of a turn whose ranking succeeds is the texts of
    the ranked documents in ranked order, each followed by a line feed. *)
Theorem relevant_text_is_ranked_texts st user_query ranked_docs :
  rank_documents st user_query = inr ranked_docs ->
  gather (values (pdf_texts st)) ranked_docs "" =
  inr (String.concat ""
         (map (fun idx => nth idx (values (pdf_texts st)) "" ++ newline)%string
            ranked_docs)).
Proof.
  intros Hrank. rewrite gather_app; [done|].
  unfold values. rewrite length_map. eapply ranked_in_range; eauto.
Qed.

(** X26. A query made of whitespace passes the check of [/chat], which
    turns away only the absent and the empty query, and is refused by the
    ranker: the answer has status 200, carries the ranker's error as its
    text and no follow-up question, and the state is as it was. *)
Theorem chat_blank_query request user_query st :
  request_query request = Some user_query ->
  user_query <> "" ->
  forallb isspace (chars user_query) = true ->
  chat request st =
  ((ChatBody
      (match pdf_texts st with
       | [] =>
           "Error processing your query: No documents found to rank against. Ensure documents are loaded correctly."
       | _ :: _ =>
           "Error processing your query: Query is empty or contains only whitespace."
       end) [], 200), st).
Proof.
  intros Hq Hne Hblank. unfold chat. rewrite Hq.
  destruct (String.eqb_spec user_query ""); [done|].
  rewrite respond_cases. unfold rank_documents.
  destruct (pdf_texts st); [done|].
  by rewrite (strip_blank _ Hblank).
Qed.

(** X27. Of the requests to [/chat] whose body is a JSON object with a
    query and a session identifier that are each a string or absent: one
    without a query, or with the empty query, is answered 400 and leaves
    the state as it was; one with a query that is a string and not empty
    is answered 200 with a response text and at most three follow-up
    questions, whatever happens in the engine, and leaves the corpus as it
    was. *)
Theorem chat_status request st :
  (request_query request = None \/ request_query request = Some "" ->
   chat request st = ((ErrorBody "Query is required", 400), st)) /\
  (forall user_query,
     request_query request = Some user_query ->
     user_query <> "" ->
     exists response follow_up_questions st',
       chat request st = ((ChatBody response follow_up_questions, 200), st') /\
       length follow_up_questions <= 3 /\
       pdf_texts st' = pdf_texts st).
Proof.
  unfold chat. split.
  - by intros [->| ->].
  - intros q -> Hq. destruct (String.eqb_spec q ""); [done|].
    set (session_id :=
           match request_session_id request with
           | Some session_id => session_id
           | None => "default"
           end).
    pose proof (respond_at_most_three q session_id st) as Hlen.
    pose proof (respond_keeps_corpus q session_id st) as Hcorpus.
    destruct (chatbot_respond q session_id st) as [[response questions] st'].
    by exists response, questions, st'.
Qed.

End OrchestratorMore.

Lemma respond_leaves_other_sessions_witness :
  user_query_history
    (snd (respond "fine" "why is the sky blue" "s" one_document)) !! "t" =
  user_query_history one_document !! "t".
Proof.
  apply (@respond_leaves_other_sessions words_sklearn stable_numpy
           (constant_generator "fine") "why is the sky blue" "s" "t"
           one_document).
  discriminate.
Defined.

Lemma failed_generation_is_not_rolled_back_witness :
  let turn :=
    @chatbot_respond words_sklearn stable_numpy (failing_generator "quota")
      "why is the sky blue" "s" one_document in
  fst turn = ("Error processing your query: quota", []) /\
  Session.query <$> user_query_history (snd turn) !! "s" =
    Some "why is the sky blue".
Proof.
  destruct (@failed_generation_is_not_rolled_back words_sklearn stable_numpy
              (failing_generator "quota") words_sklearn_shape
              stable_numpy_permutation stable_numpy_ascending
              "why is the sky blue" "s" one_document [0])
    as (text & Htext & Hturn).
  { vm_compute. reflexivity. }
  cbv zeta.
  rewrite (Hturn (CollaboratorError "quota") (chat_session one_document));
    [|reflexivity].
  split; [reflexivity|]. simpl. by rewrite lookup_insert_eq.
Defined.

Lemma successful_turn_witness :
  fst (respond "  fine  " "why is the sky blue" "s" one_document) =
  ("fine",
   ["What about The sky is blue today.?";
    "What about Clouds form from water vapor?"]).
Proof.
  destruct (@successful_turn words_sklearn stable_numpy
              (constant_generator "  fine  ") words_sklearn_shape
              stable_numpy_permutation stable_numpy_ascending
              "why is the sky blue" "s" one_document [0])
    as (text & Htext & Hturn).
  { vm_compute. reflexivity. }
  destruct (Hturn "  fine  "
              (chat_session one_document ++
                 [(system_prompt "why is the sky blue" text, "  fine  ")]))
    as [Hanswer _]; [reflexivity|].
  unfold respond. rewrite Hanswer.
  vm_compute in Htext. injection Htext as <-.
  vm_compute. reflexivity.
Defined.

Lemma relevant_text_is_ranked_texts_witness :
  gather (values (pdf_texts five_documents)) [4; 2; 1] "" =
  inr ("gamma" ++ newline ++ "gamma" ++ newline ++ "beta gamma" ++ newline)%string.
Proof.
  rewrite (@relevant_text_is_ranked_texts words_sklearn stable_numpy
             words_sklearn_shape stable_numpy_permutation
             stable_numpy_ascending five_documents "gamma" [4; 2; 1]).
  - vm_compute. reflexivity.
  - vm_compute. reflexivity.
Defined.

Lemma chat_blank_query_witness :
  @chat words_sklearn stable_numpy (constant_generator "fine")
    {| request_query := Some "   "; request_session_id := None |}
    one_document =
  ((ChatBody
      "Error processing your query: Query is empty or contains only whitespace."
      [], 200), one_document).
Proof.
  apply (@chat_blank_query words_sklearn stable_numpy
           (constant_generator "fine")
           {| request_query := Some "   "; request_session_id := None |}
           "   " one_document).
  - reflexivity.
  - discriminate.
  - vm_compute. reflexivity.
Defined.

Lemma chat_status_witness :
  @chat words_sklearn stable_numpy (constant_generator "fine")
    {| request_query := Some ""; request_session_id := Some "s" |}
    one_document =
  ((ErrorBody "Query is required", 400), one_document).
Proof.
  apply (@chat_status words_sklearn stable_numpy (constant_generator "fine")
           {| request_query := Some ""; request_session_id := Some "s" |}
           one_document).
  by right.
Defined.

End OrchestratorProps.
